(** * Earnings Date Fetcher (app.py): a shallow embedding and its properties

    The development follows [src/app.py]: the per-symbol resolver
    [fetch_from_yf] (two query strategies, normalisation of the candidates,
    selection of the next date, packaging of the result record), the symbol
    preprocessing of the upload, the threaded batch and the merge of the
    results onto the uploaded table.

    Instants are integers: the position of an aware UTC [datetime] on the
    time line (microseconds since the epoch).  What Python, pandas, yfinance
    and the clock do is not code of this repository and enters as
    parameters: [str.upper], [str.lower] and [str.strip] are the members of
    the class [PyStr], the text [astype(str)] gives a missing cell is the
    member of [Pandas], the date functions are the members of [Dates], and
    the provider's answers and the clock are the fields of [World].  The
    memoisation of [fetch_from_yf] ([st.cache_data]) is left out: a run
    fetches each symbol once, and a record served from the cache is the
    record of an earlier [World].  The order in which the futures of the
    batch complete is a parameter of the run, its schedule. *)

From stdpp Require Import base gmap sets list strings sorting pretty.

Set Warnings "-clear-no-such-hyp".
Open Scope string_scope.
Open Scope list_scope.
Open Scope Z_scope.

(** ** Python strings

    A string is the UTF-8 text of a Python [str].  On ASCII text the case
    and white space functions of Python are the ones below. *)

Definition ascii_lower_char (c : Ascii.ascii) : Ascii.ascii :=
  let n := Ascii.nat_of_ascii c in
  if bool_decide (65 ≤ n ≤ 90)%nat then Ascii.ascii_of_nat (n + 32) else c.

Definition ascii_upper_char (c : Ascii.ascii) : Ascii.ascii :=
  let n := Ascii.nat_of_ascii c in
  if bool_decide (97 ≤ n ≤ 122)%nat then Ascii.ascii_of_nat (n - 32) else c.

Fixpoint ascii_lower (s : string) : string :=
  match s with
  | EmptyString => EmptyString
  | String c r => String (ascii_lower_char c) (ascii_lower r)
  end.

Fixpoint ascii_upper (s : string) : string :=
  match s with
  | EmptyString => EmptyString
  | String c r => String (ascii_upper_char c) (ascii_upper r)
  end.

(** The ASCII characters [str.strip()] removes: tab, line feed, vertical
    tab, form feed, carriage return, the four separators 28-31 and the
    space. *)
Definition is_ascii_space (c : Ascii.ascii) : bool :=
  let n := Ascii.nat_of_ascii c in
  bool_decide (9 ≤ n ≤ 13)%nat || bool_decide (28 ≤ n ≤ 32)%nat.

Fixpoint ascii_lstrip (s : string) : string :=
  match s with
  | EmptyString => EmptyString
  | String c r => if is_ascii_space c then ascii_lstrip r else s
  end.

Fixpoint ascii_rstrip (s : string) : string :=
  match s with
  | EmptyString => EmptyString
  | String c r =>
      match ascii_rstrip r with
      | EmptyString =>
          if is_ascii_space c then EmptyString else String c EmptyString
      | r' => String c r'
      end
  end.

Definition ascii_strip (s : string) : string := ascii_lstrip (ascii_rstrip s).

(** The text has ASCII characters only. *)
Fixpoint ascii_text (s : string) : bool :=
  match s with
  | EmptyString => true
  | String c r => bool_decide (Ascii.nat_of_ascii c < 128)%nat && ascii_text r
  end.

(** [str.upper], [str.lower] and [str.strip] of Python, of which this
    development uses no more than their values on ASCII text. *)
Class PyStr := {
  upper : string → string;
  lower : string → string;
  strip : string → string;
  upper_ascii : ∀ s, ascii_text s → upper s = ascii_upper s;
  lower_ascii : ∀ s, ascii_text s → lower s = ascii_lower s;
  strip_ascii : ∀ s, ascii_text s → strip s = ascii_strip s;
}.

(** [needle in s] *)
Fixpoint contains (needle s : string) : bool :=
  if String.prefix needle s then true
  else match s with
       | EmptyString => false
       | String _ r => contains needle r
       end.

(** [x or d] for an optional string: [None] and the empty string are falsy. *)
Definition or_else (x : option string) (d : string) : string :=
  match x with
  | Some s => if decide (s = "") then d else s
  | None => d
  end.

(** ** What a call into a library gives back *)

Inductive outcome (A : Type) : Type :=
| Returned (a : A)
| Raised (msg : string).
Arguments Returned {A} a.
Arguments Raised {A} msg.

(** What line 115 appends to [clean] for a timestamp: an aware UTC instant,
    or the null timestamp [pd.NaT], which the conversion hands back without
    raising. *)
Inductive stamp : Type :=
| Instant (z : Z)
| NaT.

Global Instance stamp_eq_dec : EqDecision stamp.
Proof. solve_decision. Defined.

(** An entry of [dt_candidates]: a timestamp-like scalar, or an index of
    timestamps (what [pd.to_datetime] makes of a list).  Line 115 turns the
    latter into an array, on which the [set(clean)] of line 119 raises a
    [TypeError] with the message [msg]. *)
Inductive candidate (value : Type) : Type :=
| Scalar (v : value)
| Array (msg : string).
Arguments Scalar {value} v.
Arguments Array {value} msg.

(** The date functions the resolver calls, over the type [value] of the
    Python values a provider frame can hold. *)
Class Dates (value : Type) := {
  (** [isinstance(val, (pd.Timestamp, datetime))], line 90 *)
  is_timestamp : value → bool;
  (** [pd.to_datetime(val)] of a timestamp, line 91 *)
  to_datetime : value → outcome value;
  (** [list(val) if hasattr(val, "__iter__") else [val]], line 95 *)
  iter_values : value → outcome (list value);
  (** lines 96-97 for one element: [pd.to_datetime(x, errors="coerce")]
      and the test [pd.notna] of what it gives; [None] when the test drops
      the element *)
  coerce : value → outcome (option (candidate value));
  (** [pd.to_datetime(column, errors="coerce").dropna().to_list()] of
      lines 73 and 104, on the cells of one column *)
  coerce_column : list value → outcome (list value);
  (** [pd.to_datetime(d, utc=True).to_pydatetime()] of a scalar, line 115:
      what it gives, or [None] when it raises *)
  to_utc : value → option stamp;
  (** [datetime.isoformat] of an aware UTC instant, line 127 *)
  isoformat : Z → string;
  (** which arrangement [sorted(set(clean))] leaves when the null timestamp
      is among the values: every comparison with it is false, so the result
      follows the iteration order of the set; see [sorted_clean] *)
  null_order : list stamp → list nat;
}.

(** The elements of [pending] in the order in which [sched] picks them:
    [as_completed] on the futures of the batch.  The schedule names, at each
    step, which of the pending futures finishes next. *)
Fixpoint as_completed {A} (sched : list nat) (pending : list A) (n : nat)
  : list A :=
  match n with
  | O => []
  | S n =>
      let k := (default 0 (head sched) `mod` length pending)%nat in
      match pending !! k with
      | Some x => x :: as_completed (tail sched) (delete k pending) n
      | None => []
      end
  end.

(** ** The resolver *)

Section Resolver.
Context {value : Type} `{!Dates value, !PyStr}.

(** A column label of a provider frame: [c.lower()] exists on strings only. *)
Inductive label : Type :=
| Name (s : string)
| NotAString.

Global Instance label_eq_dec : EqDecision label.
Proof. solve_decision. Defined.

Inductive frame_index : Type :=
| DatetimeIndex (dates : list value)   (* [df.index.to_pydatetime().tolist()] *)
| OtherIndex (rows : nat).

(** The frame [t.get_earnings_dates(limit=12)] answers with. *)
Record earnings_frame : Type := {
  ed_index : frame_index;
  ed_columns : list (label * list value);
}.

Definition len (df : earnings_frame) : nat :=
  match ed_index df with
  | DatetimeIndex dates => length dates
  | OtherIndex rows => rows
  end.

(** The frame [t.calendar] answers with, as lines 86-106 look at it. *)
Record calendar_frame : Type := {
  cal_empty : bool;
  (** [Some v] when ["Earnings Date" in cal.index]; [v] is what
      [cal.loc["Earnings Date"].values[0]] gives *)
  cal_index_row : option (outcome value);
  (** [Some v] when ["Earnings Date" in cal.columns]; [v] is what
      [cal["Earnings Date"]] gives, the cells of a column *)
  cal_column : option (outcome (list value));
}.

(** A [yf.Ticker]: each endpoint either raises or answers; [None] stands for
    an answer that is [None] or not a [DataFrame]. *)
Record Ticker : Type := {
  get_earnings_dates : outcome (option earnings_frame);
  calendar : outcome (option calendar_frame);
}.

Inductive endpoint : Type :=
| GetEarningsDates
| Calendar.

(** The locals of lines 55-108, and the endpoints queried so far. *)
Record adapter : Type := {
  dt_candidates : list (candidate value);
  used : option string;
  queried : list endpoint;
}.

Definition adapter_init : adapter :=
  {| dt_candidates := []; used := None; queried := [] |}.

Definition query (e : endpoint) (st : adapter) : adapter :=
  {| dt_candidates := dt_candidates st; used := used st;
     queried := queried st ++ [e] |}.

Definition set_used (tag : string) (st : adapter) : adapter :=
  {| dt_candidates := dt_candidates st; used := Some tag;
     queried := queried st |}.

Definition set_candidates (ds : list (candidate value)) (st : adapter)
  : adapter :=
  {| dt_candidates := ds; used := used st; queried := queried st |}.

(** Lines 67-71: the first label whose lower-cased text contains "date". *)
Fixpoint find_date_col (cols : list (label * list value))
  : outcome (option string) :=
  match cols with
  | [] => Returned None
  | (NotAString, _) :: _ => Raised "AttributeError"
  | (Name c, _) :: rest =>
      if contains "date" (lower c) then Returned (Some c)
      else find_date_col rest
  end.

(** [df[c]] as a column: the cells under the label [c] when one column
    only carries it.  Under a label that several columns carry, [df[c]] is
    a frame. *)
Definition column_of (c : string) (cols : list (label * list value))
  : option (list value) :=
  match filter (λ col, col.1 = Name c) cols with
  | [col] => Some col.2
  | _ => None
  end.

(** Lines 63-75.  [pd.to_datetime] of the frame a repeated label selects
    raises: no column of it is named after a unit of time. *)
Definition modern_dates (df : earnings_frame)
  : outcome (list (candidate value)) :=
  match ed_index df with
  | DatetimeIndex dates => Returned (Scalar <$> dates)
  | OtherIndex _ =>
      match find_date_col (ed_columns df) with
      | Raised e => Raised e
      | Returned (Some c) =>
          match column_of c (ed_columns df) with
          | Some cells =>
              match coerce_column cells with
              | Returned dates => Returned (Scalar <$> dates)
              | Raised e => Raised e
              end
          | None => Raised "ValueError"
          end
      | Returned None => Returned []
      end
  end.

(** Lines 59-80: the modern strategy. *)
Definition try_get_earnings_dates (t : Ticker) (st : adapter) : adapter :=
  let st := query GetEarningsDates st in
  match get_earnings_dates t with
  | Returned (Some df) =>
      if bool_decide (0 < len df)%nat then
        match modern_dates df with
        | Returned dates =>
            set_used "get_earnings_dates"
              (set_candidates (dt_candidates st ++ dates) st)
        | Raised _ => st
        end
      else st
  | Returned None => st
  | Raised _ => st
  end.

(** Lines 96-97: the elements one after the other; the first one on which
    the conversion or the test raises ends the list comprehension. *)
Fixpoint coerce_seq (seq : list value) : outcome (list (candidate value)) :=
  match seq with
  | [] => Returned []
  | x :: rest =>
      match coerce x with
      | Raised e => Raised e
      | Returned kept =>
          match coerce_seq rest with
          | Raised e => Raised e
          | Returned cands => Returned (option_list kept ++ cands)
          end
      end
  end.

(** Lines 88-101: the row labelled "Earnings Date". *)
Definition calendar_index (v : outcome value) (st : adapter) : adapter :=
  match v with
  | Raised _ => st
  | Returned val =>
      if is_timestamp val then
        match to_datetime val with
        | Returned ts =>
            set_used "calendar:index" (set_candidates [Scalar ts] st)
        | Raised _ => st
        end
      else
        match iter_values val with
        | Returned seq =>
            match coerce_seq seq with
            | Returned cands =>
                set_used "calendar:index" (set_candidates cands st)
            | Raised _ => set_used "calendar:index" st
            end
        | Raised _ => set_used "calendar:index" st
        end
  end.

(** Lines 83-108: the legacy strategy, behind the guard [not dt_candidates]. *)
Definition try_calendar (t : Ticker) (st : adapter) : adapter :=
  match dt_candidates st with
  | _ :: _ => st
  | [] =>
      let st := query Calendar st in
      match calendar t with
      | Returned (Some cal) =>
          if cal_empty cal then st
          else match cal_index_row cal, cal_column cal with
               | Some v, _ => calendar_index v st
               | None, Some (Returned cells) =>
                   match coerce_column cells with
                   | Returned dates =>
                       set_used "calendar:column"
                         (set_candidates (Scalar <$> dates) st)
                   | Raised _ => st
                   end
               | None, Some (Raised _) => st
               | None, None => st
               end
      | Returned None => st
      | Raised _ => st
      end
  end.

(** Lines 55-108 *)
Definition fetch_candidates (t : Ticker) : adapter :=
  try_calendar t (try_get_earnings_dates t adapter_init).

(** The raw candidates the modern strategy yields (line 76). *)
Definition modern_candidates (t : Ticker) : list (candidate value) :=
  dt_candidates (try_get_earnings_dates t adapter_init).

(** The raw candidates the legacy strategy yields when it is consulted. *)
Definition legacy_candidates (t : Ticker) : list (candidate value) :=
  dt_candidates (try_calendar t adapter_init).

(** The tags a strategy records in [used]. *)
Definition strategy_tags : list string :=
  ["get_earnings_dates"; "calendar:index"; "calendar:column"].

(** Lines 112-118, the timestamps among what [clean] collects: a scalar
    whose conversion raises is skipped, one that converts is kept, the null
    timestamp included. *)
Definition normalize (cands : list (candidate value)) : list stamp :=
  omap (λ c, match c with Scalar v => to_utc v | Array _ => None end) cands.

(** Lines 112-119, the arrays [clean] collects: the message of the
    [TypeError] that [set(clean)] raises on the first of them. *)
Definition unhashable (cands : list (candidate value)) : option string :=
  head (omap (λ c, match c with Scalar _ => None | Array msg => Some msg end)
          cands).

(** The instants of a list of timestamps. *)
Definition instants (clean : list stamp) : list Z :=
  omap (λ d, match d with Instant z => Some z | NaT => None end) clean.

(** [sorted(set(clean))] of instants *)
Definition sorted_set (clean : list Z) : list Z :=
  merge_sort Z.le (elements (list_to_set clean : gset Z)).

(** Line 119: [sorted(set(clean))].  Instants are ordered.  With the null
    timestamp among them no order is: the set still holds each value once,
    and the list comes out in an arrangement of the set's choosing. *)
Definition sorted_clean (clean : list stamp) : list stamp :=
  if decide (NaT ∈ clean) then
    as_completed (null_order clean) (remove_dups clean)
      (length (remove_dups clean))
  else Instant <$> sorted_set (instants clean).

(** [d >= now], line 123: false of the null timestamp. *)
Definition on_or_after (now : Z) (d : stamp) : bool :=
  match d with
  | Instant z => bool_decide (now ≤ z)
  | NaT => false
  end.

(** Lines 121-124 *)
Definition next_dt (now : Z) (clean : list stamp) : option stamp :=
  match clean with
  | [] => None
  | _ :: _ =>
      match filter (λ d, on_or_after now d) clean with
      | d :: _ => Some d
      | [] => last clean
      end
  end.

(** [next_dt.isoformat()], line 127 *)
Definition isoformat_stamp (d : stamp) : string :=
  match d with
  | Instant z => isoformat z
  | NaT => "NaT"
  end.

Record Result : Type := {
  Symbol : string;
  NextEarningsDate : option string;
  Source : option string;
  Details : option string;
  Error : option string;
}.

Definition failure (symbol msg : string) : Result :=
  {| Symbol := symbol; NextEarningsDate := None; Source := None;
     Details := None; Error := Some msg |}.

(** Lines 110-134, from the candidates and the tag the strategies left. *)
Definition package (symbol : string) (tag : option string) (now : Z)
    (cands : list (candidate value)) : Result :=
  match unhashable cands with
  | Some msg => failure symbol msg
  | None =>
      let clean := sorted_clean (normalize cands) in
      match next_dt now clean with
      | Some d =>
          {| Symbol := symbol;
             NextEarningsDate := Some (isoformat_stamp d);
             Source := Some (or_else tag "yfinance");
             Details := Some ("candidates=" +:+ pretty (length clean));
             Error := None |}
      | None => failure symbol "No date found via yfinance endpoints"
      end
  end.

(** Lines 54-134, once [yf.Ticker(symbol)] has returned [t]. *)
Definition resolve (t : Ticker) (now : Z) (symbol : string) : Result :=
  let st := fetch_candidates t in
  package symbol (used st) now (dt_candidates st).

(** The provider and the clock: what [yf.Ticker(symbol)] gives, and the
    instant [datetime.now(timezone.utc)] reads during that symbol's
    resolution. *)
Record World : Type := {
  yf_Ticker : string → outcome Ticker;
  utc_now : string → Z;
}.

(** Lines 38-136 *)
Definition fetch_from_yf (w : World) (symbol : string) : Result :=
  match yf_Ticker w symbol with
  | Raised e => failure symbol e
  | Returned t => resolve t (utc_now w symbol) symbol
  end.

End Resolver.

Arguments frame_index value : clear implicits.
Arguments earnings_frame value : clear implicits.
Arguments calendar_frame value : clear implicits.
Arguments Ticker value : clear implicits.
Arguments adapter value : clear implicits.
Arguments World value : clear implicits.

(** ** The uploaded table *)

(** A cell of the uploaded sheet or of a result column: a text, or the
    missing value (NaN / None). *)
Inductive cell : Type :=
| Text (s : string)
| NaN.

Global Instance cell_eq_dec : EqDecision cell.
Proof. solve_decision. Defined.

Definition to_cell (x : option string) : cell :=
  match x with
  | Some s => Text s
  | None => NaN
  end.

(** What [Series.astype(str)] makes of a missing cell: a text ("nan", before
    pandas 3), or nothing, the cell staying missing (pandas 3, where [str]
    names the string dtype). *)
Class Pandas := { missing_text : option string }.

(** [Series.astype(str)] on a cell *)
Definition astype_str `{!Pandas} (c : cell) : cell :=
  match c with
  | Text s => Text s
  | NaN => to_cell missing_text
  end.

(** [Series.str.strip()], [Series.str.upper()] on a cell: a missing cell
    stays missing. *)
Definition str_method (f : string → string) (c : cell) : cell :=
  match c with
  | Text s => Text (f s)
  | NaN => NaN
  end.

(** [Series.replace({"": pd.NA})] on a cell *)
Definition replace_empty (c : cell) : cell :=
  match c with
  | Text s => if decide (s = "") then NaN else Text s
  | NaN => NaN
  end.

(** [Series.dropna()], then the values that are left *)
Definition dropna (cells : list cell) : list string :=
  omap (λ c, match c with Text s => Some s | NaN => None end) cells.

(** A [DataFrame]: its columns in order, each with its cells by row
    position. *)
Abbreviation DataFrame := (list (string * list cell)).

(** [df[name]], [None] for the [KeyError] *)
Fixpoint get_column (name : string) (df : DataFrame) : option (list cell) :=
  match df with
  | [] => None
  | (c, cells) :: rest =>
      if decide (c = name) then Some cells else get_column name rest
  end.

(** [df[name] = cells]: overwrites the column when there is one, appends it
    otherwise. *)
Fixpoint set_column (name : string) (cells : list cell) (df : DataFrame)
  : DataFrame :=
  match df with
  | [] => [(name, cells)]
  | (c, old) :: rest =>
      if decide (c = name) then (c, cells) :: rest
      else (c, old) :: set_column name cells rest
  end.

(** [df.drop(columns=[name])] *)
Definition drop_column (name : string) (df : DataFrame) : outcome DataFrame :=
  if decide (name ∈ df.*1) then Returned (filter (λ col, col.1 ≠ name) df)
  else Raised "KeyError".

(** [Series.unique()]: first occurrences, in order of appearance. *)
Fixpoint unique (l : list string) : list string :=
  match l with
  | [] => []
  | x :: r => x :: filter (λ y, y ≠ x) (unique r)
  end.

(** Lines 165-167 *)
Definition clean_symbols `{!PyStr, !Pandas} (symbol_col : list cell)
  : list string :=
  unique (dropna (replace_empty <$> (str_method upper <$>
    (str_method strip <$> (astype_str <$> symbol_col))))).

(** Lines 165-167 on one cell: what is left of it for [unique]. *)
Definition cleaned `{!PyStr, !Pandas} (c : cell) : cell :=
  replace_empty (str_method upper (str_method strip (astype_str c))).

(** The texts of a column are ASCII, the one [astype(str)] gives a missing
    cell included. *)
Definition ascii_column `{!Pandas} (col : list cell) : Prop :=
  Forall (λ c, match astype_str c with
               | Text s => Is_true (ascii_text s)
               | NaN => True
               end) col.

(** Line 194: the join key of each row *)
Definition merge_keys `{!PyStr, !Pandas} (symbol_col : list cell)
  : list cell :=
  str_method upper <$> (astype_str <$> symbol_col).

(** ** The run *)

Section App.
Context {value : Type} `{!Dates value, !PyStr, !Pandas}.

(** Lines 181-185: one future per symbol, collected as they complete. *)
Definition run_batch (w : World value) (sched : list nat) (symbols : list string)
  : list Result :=
  as_completed sched (fetch_from_yf w <$> symbols) (length symbols).

(** Line 188: [res.get("NextEarningsDate") or res.get("Error") or ""] *)
Definition summary (res : Result) : string :=
  or_else (NextEarningsDate res) (or_else (Error res) "").

(** Lines 195-197: [out.set_index("Symbol")] *)
Definition out_map (out : list Result) : gmap string Result :=
  list_to_map ((λ r, (Symbol r, r)) <$> out).

(** The cell a left join puts in a result column for a row's key. *)
Definition joined (m : gmap string Result) (field : Result → option string)
    (key : cell) : cell :=
  match key with
  | Text k =>
      match m !! k with
      | Some r => to_cell (field r)
      | None => NaN
      end
  | NaN => NaN
  end.

(** Line 196: the columns of the right-hand frame, with the field of the
    record each one holds. *)
Definition result_fields : list (string * (Result → option string)) :=
  [("NextEarningsDate", NextEarningsDate); ("Source", Source);
   ("Details", Details); ("Error", Error)].

Definition result_columns : list string := result_fields.*1.

(** The columns the join adds, row by row from the keys. *)
Definition joined_columns (m : gmap string Result) (keys : list cell)
  : DataFrame :=
  (λ nf, (nf.1, joined m nf.2 <$> keys)) <$> result_fields.

(** Line 198: [left.join(out_map, on=key)], a left join on the values of
    the column [on]; pandas refuses it when a column name is on both
    sides. *)
Definition join (left : DataFrame) (m : gmap string Result) (on : string)
  : outcome DataFrame :=
  match get_column on left with
  | None => Raised "KeyError"
  | Some keys =>
      if decide (Exists (λ c, c ∈ left.*1) result_columns)
      then Raised "columns overlap but no suffix specified"
      else Returned (left ++ joined_columns m keys)%list
  end.

(** Lines 193-199 *)
Definition merge (raw : DataFrame) (out : list Result) : outcome DataFrame :=
  match get_column "Symbol" raw with
  | None => Raised "KeyError"
  | Some col =>
      let merged := set_column "_SYMBOL_UPPER_" (merge_keys col) raw in
      match join merged (out_map out) "_SYMBOL_UPPER_" with
      | Raised e => Raised e
      | Returned merged => drop_column "_SYMBOL_UPPER_" merged
      end
  end.

(** What a run shows and does, in order. *)
Inductive event : Type :=
| StError (msg : string)
| StWarning (msg : string)
| StInfo (n_symbols : nat)
| Submit (symbol : string)
| Fetched (symbol text : string)
| StDataframe (df : DataFrame).

(** How lines 153-202 end. *)
Inductive ending : Type :=
| Stopped                 (* [st.stop()] *)
| Rendered                (* the table is on the page, line 202 *)
| Uncaught (msg : string). (* an exception left the script *)

(** Lines 153-202, from what [pd.read_excel(uploaded)] gives. *)
Definition run (uploaded : outcome DataFrame) (w : World value) (sched : list nat)
  : list event * ending :=
  match uploaded with
  | Raised e => ([StError ("Failed to read Excel: " +:+ e)], Stopped)
  | Returned raw =>
      match get_column "Symbol" raw with
      | None =>
          ([StError "The uploaded file must contain a 'Symbol' column."],
           Stopped)
      | Some col =>
          match clean_symbols col with
          | [] => ([StWarning "No symbols found after cleaning."], Stopped)
          | symbols =>
              let out_rows := run_batch w sched symbols in
              let log :=
                (StInfo (length symbols) :: (Submit <$> symbols)
                 ++ ((λ res, Fetched (Symbol res) (summary res)) <$> out_rows))%list in
              match merge raw out_rows with
              | Raised e => (log, Uncaught e)
              | Returned merged => ((log ++ [StDataframe merged])%list, Rendered)
              end
          end
      end
  end.

(** The fetches a run dispatched. *)
Definition submitted (log : list event) : list string :=
  omap (λ e, match e with Submit s => Some s | _ => None end) log.

(** The table a run ends on (line 202), if it shows one. *)
Definition shown (log : list event) : option DataFrame :=
  match last log with
  | Some (StDataframe df) => Some df
  | _ => None
  end.

(** What the rows keyed [k] find in a result column after a batch over
    [symbols]: the field of [k]'s own resolution, or nothing. *)
Definition expected_cell (w : World value) (symbols : list string)
    (field : Result → option string) (k : string) : cell :=
  if decide (k ∈ symbols) then to_cell (field (fetch_from_yf w k)) else NaN.

End App.

(** ** A small instance to run the definitions on

    Values are instants ([Moment]), the null timestamp ([Null]), texts
    ([Junk]: no date can be read from them), datetimes outside the range of
    pandas timestamps ([OutOfBounds]: the conversions raise, or give null
    under [errors="coerce"]), lists of instants ([Several]) and lists
    holding one list of instants ([Nested]). *)

Inductive sample_value : Type :=
| Moment (z : Z)
| Null
| Junk (s : string)
| OutOfBounds (z : Z)
| Several (zs : list Z)
| Nested (zs : list Z).

Definition is_moment (v : sample_value) : bool :=
  match v with Moment _ => true | _ => false end.

(** The texts [pd.to_datetime] reads as the null timestamp. *)
Definition null_texts : list string :=
  [""; "NaT"; "nat"; "NAT"; "nan"; "NaN"; "NAN"].

Fixpoint characters (s : string) : list string :=
  match s with
  | EmptyString => []
  | String c r => String c EmptyString :: characters r
  end.

#[global] Instance sample_dates : Dates sample_value := {|
  is_timestamp v :=
    match v with Moment _ | Null | OutOfBounds _ => true | _ => false end;
  to_datetime v :=
    match v with
    | Moment _ | Null => Returned v
    | OutOfBounds _ => Raised "Out of bounds nanosecond timestamp"
    | _ => Raised "Unknown datetime string format"
    end;
  iter_values v :=
    match v with
    | Several zs => Returned (Moment <$> zs)
    | Nested zs => Returned [Several zs]
    | Junk s => Returned (Junk <$> characters s)
    | _ => Returned [v]
    end;
  coerce v :=
    match v with
    | Moment _ => Returned (Some (Scalar v))
    | Null | Junk _ | OutOfBounds _ => Returned None
    | Several [] => Raised "The truth value of an empty array is ambiguous"
    | Several [_] =>
        Returned (Some (Array "unhashable type: 'numpy.ndarray'"))
    | Several _ =>
        Raised "The truth value of an array with more than one element is ambiguous"
    | Nested _ => Raised "TypeError"
    end;
  coerce_column cells :=
    Returned (filter (λ v, is_moment v) cells);
  to_utc v :=
    match v with
    | Moment z => Some (Instant z)
    | Null => Some NaT
    | Junk s => if existsb (String.eqb s) null_texts then Some NaT else None
    | OutOfBounds _ | Several _ | Nested _ => None
    end;
  isoformat z := pretty z;
  null_order _ := [];
|}.

(** Python's functions on ASCII text. *)
#[global] Instance ascii_str : PyStr := {|
  upper := ascii_upper;
  lower := ascii_lower;
  strip := ascii_strip;
  upper_ascii _ _ := eq_refl;
  lower_ascii _ _ := eq_refl;
  strip_ascii _ _ := eq_refl;
|}.

(** pandas before 3.0, and from 3.0 on. *)
Definition pandas2 : Pandas := {| missing_text := Some "nan" |}.
#[global] Instance pandas3 : Pandas := {| missing_text := None |}.

(** A provider whose modern endpoint answers a frame indexed by [dates] and
    whose calendar endpoint raises. *)
Definition sample_ticker (dates : list sample_value) : Ticker sample_value :=
  {| get_earnings_dates :=
       Returned (Some {| ed_index := DatetimeIndex dates; ed_columns := [] |});
     calendar := Raised "calendar unavailable" |}.

(** A provider whose modern endpoint raises and whose calendar has the row
    "Earnings Date" holding [v]. *)
Definition calendar_ticker (v : sample_value) : Ticker sample_value :=
  {| get_earnings_dates := Raised "get_earnings_dates unavailable";
     calendar :=
       Returned (Some {| cal_empty := false; cal_index_row := Some (Returned v);
                         cal_column := None |}) |}.

(** AAPL has two dates, one before and one after the clock's instant; the
    only date of BAD cannot be converted; the index of NONE holds the null
    timestamp; the calendar of RANGE holds a list of one list of dates;
    [yf.Ticker] raises for MSFT; every other symbol has no date at all. *)
Definition sample_world : World sample_value :=
  {| yf_Ticker s :=
       if decide (s = "AAPL")
       then Returned (sample_ticker [Moment 1704844800; Moment 1718409600])
       else if decide (s = "BAD")
       then Returned (sample_ticker [OutOfBounds 253402214400])
       else if decide (s = "NONE")
       then Returned (sample_ticker [Null])
       else if decide (s = "RANGE")
       then Returned (calendar_ticker (Nested [1718409600]))
       else if decide (s = "MSFT") then Raised "X"
       else Returned (sample_ticker []);
     utc_now _ := 1709251200 |}.

(** The upload of the specification's merge example, with a missing symbol
    and a second column added. *)
Definition sample_upload : DataFrame :=
  [("Symbol", [Text "aapl"; Text "AAPL"; Text "msft"; NaN]);
   ("Note", [Text "a"; Text "b"; Text "c"; Text "d"])].

(** An upload whose only symbol has a leading space. *)
Definition padded_upload : DataFrame := [("Symbol", [Text " aapl"])].

(** An upload with a column named like the helper column of the merge. *)
Definition clashing_upload : DataFrame :=
  [("Symbol", [Text "AAPL"]); ("_SYMBOL_UPPER_", [Text "mine"])].

(** An upload with padded, repeated and blank symbols. *)
Definition untidy_upload : DataFrame :=
  [("Symbol", [Text " aapl"; Text "AAPL "; Text "  "; Text ""; Text "msft";
               Text "Aapl"])].

(** * Properties *)

(** ** Completion order *)

Lemma as_completed_Permutation {A} (pending : list A) (sched : list nat) :
  as_completed sched pending (length pending) ≡ₚ pending.
Proof.
  remember (length pending) as n eqn:Hn.
  revert pending sched Hn.
  induction n as [|n IH]; intros pending sched Hn; simpl.
  - symmetry in Hn. apply length_zero_iff_nil in Hn. by subst.
  - rewrite <- Hn.
    assert (default 0 (head sched) `mod` S n < S n)%nat as Hk
      by (apply Nat.mod_upper_bound; lia).
    destruct (lookup_lt_is_Some_2 pending
                (default 0 (head sched) `mod` S n)%nat) as [x Hx]; [lia|].
    rewrite Hx. rewrite (delete_Permutation pending _ x Hx) at 2.
    constructor. apply IH.
    rewrite length_delete by eauto. lia.
Qed.

Lemma as_completed_length {A} (pending : list A) (sched : list nat) :
  length (as_completed sched pending (length pending)) = length pending.
Proof. by rewrite as_completed_Permutation. Qed.

Lemma as_completed_step {A} (sched : list nat) (pending : list A) (n k : nat)
    (x : A) :
  (default 0 (head sched) `mod` length pending)%nat = k →
  pending !! k = Some x →
  as_completed sched pending (S n)
  = x :: as_completed (tail sched) (delete k pending) n.
Proof.
  intros <- Hx.
  change (as_completed sched pending (S n)) with
    (let k := (default 0 (head sched) `mod` length pending)%nat in
     match pending !! k with
     | Some x => x :: as_completed (tail sched) (delete k pending) n
     | None => []
     end).
  cbv zeta. by rewrite Hx.
Qed.

(** X3: every order of completion is the order of some schedule. *)
Theorem as_completed_any_order {A} (pending done : list A) :
  done ≡ₚ pending →
  ∃ sched, as_completed sched pending (length pending) = done.
Proof.
  revert pending. induction done as [|x done IH]; intros pending Hperm.
  - apply Permutation_nil_l in Hperm. subst. by exists [].
  - assert (x ∈ pending) as Hx by (rewrite <- Hperm; left).
    apply list_elem_of_lookup in Hx as [k Hk].
    pose proof (lookup_lt_Some _ _ _ Hk) as Hlt.
    assert (done ≡ₚ delete k pending) as Hrest.
    { apply (inj (cons x)). by rewrite Hperm, <- delete_Permutation. }
    destruct (IH _ Hrest) as [sched Hsched].
    exists (k :: sched).
    assert (length pending = S (length (delete k pending))) as ->
      by (rewrite length_delete by eauto; lia).
    rewrite (as_completed_step (k :: sched) pending _ k x); [by f_equal| |done].
    simpl head. simpl default. by apply Nat.mod_small.
Qed.

(** ** Sorting and selection *)

Lemma sorted_set_elem (clean : list Z) (x : Z) :
  x ∈ sorted_set clean ↔ x ∈ clean.
Proof.
  unfold sorted_set. rewrite merge_sort_Permutation.
  rewrite elem_of_elements. apply elem_of_list_to_set.
Qed.

Lemma sorted_set_NoDup (clean : list Z) : NoDup (sorted_set clean).
Proof.
  unfold sorted_set. rewrite merge_sort_Permutation. apply NoDup_elements.
Qed.

Lemma strictly_sorted (l : list Z) :
  StronglySorted Z.le l → NoDup l → StronglySorted Z.lt l.
Proof.
  induction 1 as [|a l Hs IH Ha]; intros Hnd; [constructor|].
  apply NoDup_cons in Hnd as [Hnotin Hnd].
  constructor; [by apply IH|].
  rewrite Forall_forall in *. intros x Hx.
  pose proof (Ha x Hx). assert (a ≠ x) by (intros ->; done). lia.
Qed.

Lemma sorted_set_sorted (clean : list Z) :
  StronglySorted Z.lt (sorted_set clean).
Proof.
  apply strictly_sorted; [|apply sorted_set_NoDup].
  apply StronglySorted_merge_sort; apply _.
Qed.

Lemma sorted_set_nil (clean : list Z) : sorted_set clean = [] ↔ clean = [].
Proof.
  split.
  - intros Hnil. destruct clean as [|a clean]; [done|].
    assert (a ∈ sorted_set (a :: clean)) as Ha
      by (apply sorted_set_elem; left).
    rewrite Hnil in Ha. by apply elem_of_nil in Ha.
  - intros ->. reflexivity.
Qed.

(** A strictly ascending list is determined by its elements. *)
Lemma ascending_unique (l1 l2 : list Z) :
  StronglySorted Z.lt l1 → StronglySorted Z.lt l2 →
  (∀ x, x ∈ l1 ↔ x ∈ l2) → l1 = l2.
Proof.
  intros Hs1. revert l2.
  induction Hs1 as [|a l1 Hs1 IH Ha]; intros l2 Hs2 Heq.
  - destruct l2 as [|b l2]; [done|].
    assert (b ∈ []) as Hb by (apply Heq; left). by apply elem_of_nil in Hb.
  - destruct Hs2 as [|b l2 Hs2 Hb].
    { assert (a ∈ []) as H by (apply Heq; left). by apply elem_of_nil in H. }
    rewrite Forall_forall in Ha, Hb.
    assert (a = b) as ->.
    { assert (a ∈ b :: l2) as H1 by (apply Heq; left).
      assert (b ∈ a :: l1) as H2 by (apply Heq; left).
      apply elem_of_cons in H1 as [?|H1]; [done|].
      apply elem_of_cons in H2 as [?|H2]; [done|].
      specialize (Ha _ H2). specialize (Hb _ H1). lia. }
    f_equal. apply IH; [done|]. intros x. split; intros Hx.
    + assert (x ∈ b :: l2) as H by (apply Heq; by right).
      apply elem_of_cons in H as [->|H]; [|done].
      specialize (Ha _ Hx). lia.
    + assert (x ∈ b :: l1) as H by (apply Heq; by right).
      apply elem_of_cons in H as [->|H]; [|done].
      specialize (Hb _ Hx). lia.
Qed.

(** On an ascending list the first element passing a lower bound is the
    least element passing it. *)
Lemma first_future_least (now : Z) (l : list Z) (d : Z) (rest : list Z) :
  StronglySorted Z.lt l →
  filter (λ x, now ≤ x) l = d :: rest →
  d ∈ l ∧ now ≤ d ∧ ∀ x, x ∈ l → now ≤ x → d ≤ x.
Proof.
  induction 1 as [|a l Hs IH Ha]; intros Hf; [done|].
  rewrite filter_cons in Hf. case_decide as Hnow.
  - injection Hf as <- _. split; [left|]. split; [done|].
    intros x Hx _. apply elem_of_cons in Hx as [->|Hx]; [lia|].
    rewrite Forall_forall in Ha. specialize (Ha x Hx). lia.
  - destruct (IH Hf) as (Hin & Hle & Hmin).
    split; [by right|]. split; [done|].
    intros x Hx Hxnow. apply elem_of_cons in Hx as [->|Hx]; [done|].
    by apply Hmin.
Qed.

Lemma no_future_all_past (now : Z) (l : list Z) :
  filter (λ x, now ≤ x) l = [] ↔ ∀ x, x ∈ l → x < now.
Proof.
  induction l as [|a l IH].
  - split; [|done]. intros _ x Hx. by apply elem_of_nil in Hx.
  - rewrite filter_cons. case_decide as Hnow.
    + split; [done|]. intros H. assert (a < now) by (apply H; left). lia.
    + rewrite IH. split; intros H x Hx.
      * apply elem_of_cons in Hx as [->|Hx]; [lia|by apply H].
      * apply H. by right.
Qed.

(** On an ascending list the last element is the greatest. *)
Lemma last_greatest (l : list Z) (m : Z) :
  StronglySorted Z.lt l → last l = Some m →
  m ∈ l ∧ ∀ x, x ∈ l → x ≤ m.
Proof.
  induction 1 as [|a l Hs IH Ha]; intros Hl; [done|].
  destruct l as [|b l].
  - injection Hl as <-. split; [left|].
    intros x Hx. apply list_elem_of_singleton in Hx as ->. lia.
  - rewrite last_cons_cons in Hl. destruct (IH Hl) as [Hin Hmax].
    split; [by right|]. intros x Hx.
    apply elem_of_cons in Hx as [->|Hx]; [|by apply Hmax].
    rewrite Forall_forall in Ha. specialize (Ha m Hin). lia.
Qed.

Global Instance Instant_inj : Inj (=) (=) Instant.
Proof. by intros x y [= ->]. Qed.

(** The timestamps of which none is null are instants. *)
Lemma instants_Instant (l : list Z) : instants (Instant <$> l) = l.
Proof.
  unfold instants. induction l as [|a l IH]; [done|]. csimpl. by rewrite IH.
Qed.

Lemma Instant_instants (clean : list stamp) :
  NaT ∉ clean → Instant <$> instants clean = clean.
Proof.
  unfold instants. induction clean as [|d clean IH]; [done|].
  rewrite not_elem_of_cons. intros [Hd Hnot].
  destruct d as [z|]; [|done]. csimpl. by rewrite IH.
Qed.

Lemma instants_elem (clean : list stamp) (z : Z) :
  z ∈ instants clean ↔ Instant z ∈ clean.
Proof.
  unfold instants. rewrite list_elem_of_omap. split.
  - intros ([z'|] & Hin & Heq); [|done]. by injection Heq as ->.
  - intros Hin. by exists (Instant z).
Qed.

Lemma filter_on_or_after (now : Z) (l : list Z) :
  filter (λ d, on_or_after now d) (Instant <$> l)
  = Instant <$> filter (λ x, now ≤ x) l.
Proof.
  induction l as [|a l IH]; [done|].
  rewrite fmap_cons, !filter_cons, IH. simpl.
  destruct (decide (now ≤ a)) as [Hle|Hlt].
  - rewrite decide_True by (by apply bool_decide_pack). done.
  - rewrite decide_False; [done|]. intros H. by apply bool_decide_unpack in H.
Qed.

(** The selection over instants, as lines 121-124 make it. *)
Lemma next_dt_instants (now : Z) (l : list Z) :
  next_dt now (Instant <$> l)
  = Instant <$> match filter (λ x, now ≤ x) l with
                | d :: _ => Some d
                | [] => last l
                end.
Proof.
  unfold next_dt. destruct l as [|a l]; [done|].
  rewrite filter_on_or_after. rewrite fmap_cons.
  destruct (filter (λ x, now ≤ x) (a :: l)) as [|d rest]; [|done].
  rewrite <- fmap_cons, fmap_last. done.
Qed.

Lemma next_dt_upcoming (now : Z) (l : list Z) (d0 : Z) :
  StronglySorted Z.lt l → d0 ∈ l → now ≤ d0 →
  ∃ m, next_dt now (Instant <$> l) = Some (Instant m) ∧ m ∈ l ∧ now ≤ m
       ∧ ∀ d, d ∈ l → now ≤ d → m ≤ d.
Proof.
  intros Hs Hin Hle. rewrite next_dt_instants.
  destruct (filter (λ d, now ≤ d) l) as [|d rest] eqn:Hf.
  - pose proof (proj1 (no_future_all_past now l) Hf d0 Hin). lia.
  - exists d. split; [done|]. by eapply first_future_least.
Qed.

Lemma next_dt_fallback (now : Z) (l : list Z) :
  StronglySorted Z.lt l → l ≠ [] → (∀ d, d ∈ l → d < now) →
  ∃ m, next_dt now (Instant <$> l) = Some (Instant m) ∧ m ∈ l
       ∧ ∀ d, d ∈ l → d ≤ m.
Proof.
  intros Hs Hne Hpast. rewrite next_dt_instants.
  rewrite (proj2 (no_future_all_past now l) Hpast).
  destruct (last l) as [m|] eqn:Hl.
  - exists m. split; [done|]. by apply last_greatest.
  - by apply last_None in Hl.
Qed.

Lemma next_dt_None (now : Z) (clean : list stamp) :
  next_dt now clean = None ↔ clean = [].
Proof.
  split; [|by intros ->].
  unfold next_dt. destruct clean as [|a l] eqn:E; [done|]. rewrite <- E.
  destruct (filter _ clean); [|done].
  rewrite last_None. by intros ->.
Qed.

Lemma next_dt_elem (now : Z) (clean : list stamp) (d : stamp) :
  next_dt now clean = Some d → d ∈ clean.
Proof.
  unfold next_dt. destruct clean as [|a l] eqn:E; [done|]. rewrite <- E.
  destruct (filter _ clean) as [|x rest] eqn:Hf.
  - apply last_Some_elem_of.
  - intros [= <-].
    assert (x ∈ filter (λ d, on_or_after now d) clean) as Hx
      by (rewrite Hf; left).
    by apply list_elem_of_filter in Hx as [_ Hx].
Qed.

Section SortedClean.
Context {value : Type} `{!Dates value}.

Lemma sorted_clean_instants (clean : list stamp) :
  NaT ∉ clean → sorted_clean clean = Instant <$> sorted_set (instants clean).
Proof. intros Hnot. unfold sorted_clean. by rewrite decide_False. Qed.

(** Whatever the arrangement, [sorted(set(clean))] holds the values of
    [clean], each once. *)
Lemma sorted_clean_elem (clean : list stamp) (d : stamp) :
  d ∈ sorted_clean clean ↔ d ∈ clean.
Proof.
  unfold sorted_clean. case_decide as Hnat.
  - rewrite as_completed_Permutation. apply elem_of_remove_dups.
  - rewrite list_elem_of_fmap. split.
    + intros (z & -> & Hz). apply (proj1 (sorted_set_elem _ _)) in Hz.
      by apply (proj1 (instants_elem _ _)).
    + intros Hd. destruct d as [z|]; [|done].
      exists z. split; [done|]. apply (proj2 (sorted_set_elem _ _)).
      by apply (proj2 (instants_elem _ _)).
Qed.

Lemma sorted_clean_NoDup (clean : list stamp) : NoDup (sorted_clean clean).
Proof.
  unfold sorted_clean. case_decide as Hnat.
  - rewrite as_completed_Permutation. apply NoDup_remove_dups.
  - apply (NoDup_fmap_2 _). apply sorted_set_NoDup.
Qed.

Lemma sorted_clean_nil (clean : list stamp) :
  sorted_clean clean = [] ↔ clean = [].
Proof.
  split; [|by intros ->].
  intros Hnil. destruct clean as [|a clean]; [done|].
  assert (a ∈ sorted_clean (a :: clean)) as Ha
    by (apply sorted_clean_elem; left).
  rewrite Hnil in Ha. by apply elem_of_nil in Ha.
Qed.

End SortedClean.

(** The two cases of the selection rule the specification works out, with
    instants in seconds: 2024-01-10 and 2024-06-15 seen from 2024-03-01, then
    2023-01-10 and 2023-06-15 seen from the same day. *)
Example next_dt_earliest_future :
  next_dt 1709251200
    (sorted_clean [Instant 1718409600; Instant 1704844800; Instant 1718409600])
  = Some (Instant 1718409600).
Proof. vm_compute. reflexivity. Qed.

Example next_dt_latest_past :
  next_dt 1709251200 (sorted_clean [Instant 1686787200; Instant 1673308800])
  = Some (Instant 1686787200).
Proof. vm_compute. reflexivity. Qed.

(** ** The resolver *)

Lemma NoDup_constant {A} (l : list A) (a : A) :
  NoDup l → l ≠ [] → (∀ x, x ∈ l → x = a) → l = [a].
Proof.
  intros Hnd Hne Hall. destruct l as [|b l]; [done|].
  assert (b = a) as -> by (apply Hall; left).
  destruct l as [|c l]; [done|].
  assert (c = a) as -> by (apply Hall; right; left).
  apply NoDup_cons in Hnd as [Hnotin _]. destruct Hnotin. left.
Qed.

Section ResolverFacts.
Context {value : Type} `{!Dates value, !PyStr}.
Implicit Types (t : Ticker value) (st : adapter value) (w : World value).
Implicit Types (cands : list (candidate value)).

Lemma unhashable_Scalar (l : list value) : unhashable (Scalar <$> l) = None.
Proof. unfold unhashable. induction l as [|a l IH]; [done|]. by csimpl. Qed.

Lemma unhashable_Some cands (msg : string) :
  unhashable cands = Some msg → Array msg ∈ cands.
Proof.
  unfold unhashable. induction cands as [|[v|m] cands IH]; [done| |]; csimpl.
  - intros Hm. right. by apply IH.
  - intros [= ->]. left.
Qed.

Lemma unhashable_None cands :
  unhashable cands = None ↔ ∀ msg, Array msg ∉ cands.
Proof.
  unfold unhashable. induction cands as [|[v|m] cands IH]; csimpl.
  - split; [|done]. intros _ msg Hin. by apply elem_of_nil in Hin.
  - rewrite IH. split; intros Hm msg.
    + rewrite not_elem_of_cons. split; [done|apply Hm].
    + specialize (Hm msg). rewrite not_elem_of_cons in Hm. tauto.
  - split; [done|]. intros Hm. destruct (Hm m). left.
Qed.

Lemma normalize_app cands cands' :
  normalize (cands ++ cands') = normalize cands ++ normalize cands'.
Proof. apply omap_app. Qed.

Lemma normalize_elem cands (d : stamp) :
  d ∈ normalize cands ↔ ∃ v, Scalar v ∈ cands ∧ to_utc v = Some d.
Proof.
  unfold normalize. rewrite list_elem_of_omap. split.
  - intros ([v|m] & Hin & Hd); [|done]. by exists v.
  - intros (v & Hin & Hd). by exists (Scalar v).
Qed.

Lemma normalize_length cands :
  (length (normalize cands) ≤ length cands)%nat.
Proof.
  unfold normalize. induction cands as [|c cands IH]; [done|]. csimpl.
  destruct c as [v|m]; [destruct (to_utc v)|]; csimpl; lia.
Qed.

Lemma package_raised (symbol : string) (tag : option string) (now : Z) cands
    (msg : string) :
  unhashable cands = Some msg →
  package symbol tag now cands = failure symbol msg.
Proof. intros Hh. unfold package. by rewrite Hh. Qed.

Lemma package_failure (symbol : string) (tag : option string) (now : Z) cands :
  unhashable cands = None → normalize cands = [] →
  package symbol tag now cands
  = failure symbol "No date found via yfinance endpoints".
Proof. intros Hh Hnil. unfold package. by rewrite Hh, Hnil. Qed.

Lemma package_success (symbol : string) (tag : option string) (now : Z) cands :
  unhashable cands = None → normalize cands ≠ [] →
  ∃ d, next_dt now (sorted_clean (normalize cands)) = Some d
       ∧ package symbol tag now cands
         = {| Symbol := symbol;
              NextEarningsDate := Some (isoformat_stamp d);
              Source := Some (or_else tag "yfinance");
              Details := Some ("candidates=" +:+
                pretty (length (sorted_clean (normalize cands))));
              Error := None |}.
Proof.
  intros Hh Hne. unfold package. rewrite Hh.
  destruct (next_dt now (sorted_clean (normalize cands))) as [d|] eqn:Hd.
  - by exists d.
  - apply (proj1 (next_dt_None _ _)) in Hd.
    apply (proj1 (sorted_clean_nil _)) in Hd. done.
Qed.

(** A record has a date only if no array was among the candidates and a
    timestamp came out of the normalisation. *)
Lemma package_dated (symbol : string) (tag : option string) (now : Z) cands :
  is_Some (NextEarningsDate (package symbol tag now cands)) →
  unhashable cands = None ∧ normalize cands ≠ [].
Proof.
  intros Hsome. destruct (unhashable cands) as [msg|] eqn:Hh.
  - rewrite (package_raised _ _ _ _ msg Hh) in Hsome. by destruct Hsome.
  - split; [done|]. intros Hnil.
    rewrite package_failure in Hsome by done. by destruct Hsome.
Qed.

(** C2: the record [fetch_from_yf] returns carries the symbol and exactly
    one of NextEarningsDate and Error; with Error set, NextEarningsDate,
    Source and Details are all absent. *)
Theorem result_date_xor_error w (symbol : string) :
  let res := fetch_from_yf w symbol in
  Symbol res = symbol
  ∧ (is_Some (NextEarningsDate res) ∧ Error res = None
     ∨ NextEarningsDate res = None ∧ is_Some (Error res))
  ∧ (is_Some (Error res) →
     NextEarningsDate res = None ∧ Source res = None ∧ Details res = None).
Proof.
  unfold fetch_from_yf, resolve, package.
  destruct (yf_Ticker w symbol) as [t|e]; simpl.
  - destruct (unhashable _) as [msg|]; simpl.
    + split; [done|]. split; [right; eauto|]. done.
    + destruct (next_dt _ _) as [d|]; simpl.
      * split; [done|]. split; [left; eauto|]. by intros [? ?].
      * split; [done|]. split; [right; eauto|]. done.
  - split; [done|]. split; [right; eauto|]. done.
Qed.

(** *** The two strategies *)

Lemma strategy_tag_named (tag : string) :
  tag ∈ strategy_tags → tag ≠ "" ∧ tag ≠ "yfinance".
Proof.
  unfold strategy_tags. rewrite !elem_of_cons, elem_of_nil.
  intros [->|[->|[->|[]]]]; by split.
Qed.

Lemma modern_queried t :
  queried (try_get_earnings_dates t adapter_init) = [GetEarningsDates].
Proof. unfold try_get_earnings_dates. by repeat case_match. Qed.

Lemma modern_used t :
  modern_candidates t ≠ [] →
  used (try_get_earnings_dates t adapter_init) = Some "get_earnings_dates".
Proof.
  unfold modern_candidates, try_get_earnings_dates.
  by repeat case_match.
Qed.

(** The modern strategy yields scalars only. *)
Lemma modern_dates_scalar (df : earnings_frame value) cands :
  modern_dates df = Returned cands → unhashable cands = None.
Proof.
  unfold modern_dates. repeat case_match; intros [= <-];
    try apply unhashable_Scalar; done.
Qed.

Lemma modern_candidates_scalar t : unhashable (modern_candidates t) = None.
Proof.
  unfold modern_candidates, try_get_earnings_dates.
  repeat case_match; try done. simpl. by eapply modern_dates_scalar.
Qed.

(** The modern candidates over a frame with a [DatetimeIndex]: the entries
    of the index, none left out. *)
Lemma modern_candidates_index t (dates : list value)
    (cols : list (label * list value)) :
  get_earnings_dates t
  = Returned (Some {| ed_index := DatetimeIndex dates; ed_columns := cols |}) →
  modern_candidates t = Scalar <$> dates.
Proof.
  intros Hget. unfold modern_candidates, try_get_earnings_dates.
  rewrite Hget. unfold len, modern_dates. simpl.
  case_bool_decide as Hlen; [done|].
  destruct dates; [done|]. simpl in Hlen. lia.
Qed.

Lemma try_calendar_skipped t st :
  dt_candidates st ≠ [] → try_calendar t st = st.
Proof. unfold try_calendar. by destruct (dt_candidates st). Qed.

Lemma try_calendar_consulted t st :
  dt_candidates st = [] →
  dt_candidates (try_calendar t st) = legacy_candidates t
  ∧ queried (try_calendar t st) = (queried st ++ [Calendar])%list.
Proof.
  intros Hnil. unfold legacy_candidates, try_calendar, calendar_index.
  rewrite Hnil. simpl. by repeat case_match.
Qed.

(** Whenever a strategy has left candidates, it has recorded its tag. *)
Lemma used_when_candidates t :
  dt_candidates (fetch_candidates t) ≠ [] →
  ∃ tag, used (fetch_candidates t) = Some tag ∧ tag ∈ strategy_tags.
Proof.
  unfold fetch_candidates, strategy_tags.
  destruct (decide (modern_candidates t = [])) as [Hnil|Hne].
  - unfold try_calendar, calendar_index. fold (modern_candidates t).
    rewrite Hnil. simpl. intros Hc.
    repeat case_match; simpl in *; try done;
      eexists; (split; [reflexivity|]);
      rewrite !elem_of_cons; tauto.
  - rewrite try_calendar_skipped by done. intros _.
    rewrite modern_used by done. eexists. split; [done|left].
Qed.

(** C3, as amended: when the modern strategy yields a raw candidate, the
    calendar endpoint is not queried, the tag recorded is
    "get_earnings_dates" and the candidates are the modern ones alone; the
    record then names that tag as its Source if a candidate survives
    normalisation, and otherwise carries Error and no Source.  The modern
    endpoint is always queried first, and when it yields nothing the
    candidates are those of the calendar alone. *)
Theorem strategy_precedence t (now : Z) (symbol : string) :
  let st := fetch_candidates t in
  let res := resolve t now symbol in
  (modern_candidates t ≠ [] →
     queried st = [GetEarningsDates]
     ∧ used st = Some "get_earnings_dates"
     ∧ dt_candidates st = modern_candidates t
     ∧ (normalize (modern_candidates t) ≠ [] →
        Source res = Some "get_earnings_dates")
     ∧ (normalize (modern_candidates t) = [] →
        Source res = None ∧ is_Some (Error res)))
  ∧ (modern_candidates t = [] →
     queried st = [GetEarningsDates; Calendar]
     ∧ dt_candidates st = legacy_candidates t).
Proof.
  intros st res. split.
  - intros Hne. subst st res. unfold resolve, fetch_candidates.
    rewrite try_calendar_skipped by done.
    rewrite modern_queried, modern_used by done.
    fold (modern_candidates t).
    pose proof (modern_candidates_scalar t) as Hh.
    split; [done|]. split; [done|]. split; [done|]. split.
    + intros Hnorm.
      destruct (package_success symbol (Some "get_earnings_dates") now
                  (modern_candidates t) Hh Hnorm) as (d & _ & ->).
      reflexivity.
    + intros Hnorm. rewrite package_failure by done. simpl. eauto.
  - intros Hnil. subst st. unfold fetch_candidates.
    destruct (try_calendar_consulted t (try_get_earnings_dates t adapter_init))
      as [Hc Hq]; [done|].
    by rewrite Hc, Hq, modern_queried.
Qed.

(** C10: a record with a date names one of the three strategy tags as its
    Source, the tag the strategies recorded; the label "yfinance" never
    shows. *)
Theorem fallback_label_unreachable w (symbol : string) :
  is_Some (NextEarningsDate (fetch_from_yf w symbol)) →
  ∃ t tag,
    yf_Ticker w symbol = Returned t
    ∧ used (fetch_candidates t) = Some tag
    ∧ tag ∈ strategy_tags
    ∧ Source (fetch_from_yf w symbol) = Some tag
    ∧ tag ≠ "yfinance".
Proof.
  unfold fetch_from_yf. destruct (yf_Ticker w symbol) as [t|e];
    [|by intros [? ?]].
  unfold resolve. intros Hsome.
  destruct (package_dated _ _ _ _ Hsome) as [Hh Hnorm].
  assert (dt_candidates (fetch_candidates t) ≠ []) as Hne.
  { intros Hnil. by rewrite Hnil in Hnorm. }
  destruct (used_when_candidates t Hne) as (tag & Hused & Htag).
  exists t, tag. split; [done|]. split; [done|]. split; [done|].
  destruct (strategy_tag_named tag Htag) as [Hname Hfb].
  split; [|done].
  destruct (package_success symbol (used (fetch_candidates t))
              (utc_now w symbol) _ Hh Hnorm) as (d & _ & ->).
  rewrite Hused. simpl. by case_decide.
Qed.

(** *** The null timestamp among the candidates *)

(** C1: the selection of lines 110-131 takes the null timestamp for a
    date.  Over an answer of the modern endpoint whose index holds null
    timestamps only, the normalised, deduplicated candidates are the null
    timestamp alone; it is the date selected, and the record reports it as
    NextEarningsDate "NaT", with no Error: no instant was selected, and the
    resolution did not fail. *)
Theorem null_timestamp_selected t (now : Z) (symbol : string)
    (dates : list value) (cols : list (label * list value)) :
  get_earnings_dates t
  = Returned (Some {| ed_index := DatetimeIndex dates; ed_columns := cols |}) →
  dates ≠ [] →
  Forall (λ d, to_utc d = Some NaT) dates →
  sorted_clean (normalize (dt_candidates (fetch_candidates t))) = [NaT]
  ∧ next_dt now [NaT] = Some NaT
  ∧ resolve t now symbol
    = {| Symbol := symbol; NextEarningsDate := Some "NaT";
         Source := Some "get_earnings_dates";
         Details := Some "candidates=1"; Error := None |}.
Proof.
  intros Hget Hne Hall.
  pose proof (modern_candidates_index t dates cols Hget) as Hm.
  assert (modern_candidates t ≠ []) as Hmne.
  { rewrite Hm. by destruct dates. }
  assert (dt_candidates (fetch_candidates t) = modern_candidates t) as Hc.
  { unfold fetch_candidates. by rewrite try_calendar_skipped. }
  assert (used (fetch_candidates t) = Some "get_earnings_dates") as Hused.
  { unfold fetch_candidates. rewrite try_calendar_skipped by done.
    by apply modern_used. }
  assert (sorted_clean (normalize (Scalar <$> dates)) = [NaT]) as Hclean.
  { apply NoDup_constant; [apply sorted_clean_NoDup| |].
    - rewrite sorted_clean_nil. destruct dates as [|d dates]; [done|].
      apply Forall_cons in Hall as [Hd _]. unfold normalize. csimpl.
      by rewrite Hd.
    - intros x Hx. apply (proj1 (sorted_clean_elem _ _)) in Hx.
      apply (proj1 (normalize_elem _ _)) in Hx as (v & Hv & Hx).
      apply list_elem_of_fmap in Hv as (v' & [= <-] & Hv').
      rewrite Forall_forall in Hall. specialize (Hall _ Hv'). congruence. }
  split; [by rewrite Hc, Hm|]. split; [done|].
  unfold resolve, package. rewrite Hc, Hused, Hm, unhashable_Scalar, Hclean.
  reflexivity.
Qed.

(** C4: the normaliser of lines 112-119 keeps a candidate that the
    conversion of line 115 turns into the null timestamp, which is what it
    makes of the empty string: the null timestamp is in the sorted,
    deduplicated sequence the selection works on, and is counted with the
    candidates. *)
Theorem null_candidate_kept (before after : list (candidate value))
    (d : value) :
  to_utc d = Some NaT →
  normalize (before ++ Scalar d :: after)
  = normalize before ++ NaT :: normalize after
  ∧ NaT ∈ sorted_clean (normalize (before ++ Scalar d :: after))
  ∧ (NaT ∉ normalize (before ++ after) →
     length (sorted_clean (normalize (before ++ Scalar d :: after)))
     = S (length (sorted_clean (normalize (before ++ after))))).
Proof.
  intros Hd.
  assert (normalize (before ++ Scalar d :: after)
          = normalize before ++ NaT :: normalize after) as Hn.
  { unfold normalize. rewrite omap_app. csimpl. by rewrite Hd. }
  split; [done|]. split.
  - apply sorted_clean_elem. rewrite Hn, elem_of_app. right. left.
  - intros Hnot. change (S (length ?l)) with (length (NaT :: l)).
    apply Permutation_length, NoDup_Permutation.
    + apply sorted_clean_NoDup.
    + constructor; [|apply sorted_clean_NoDup].
      by rewrite sorted_clean_elem.
    + intros x. rewrite elem_of_cons, !sorted_clean_elem, Hn, normalize_app.
      rewrite !elem_of_app, elem_of_cons. tauto.
Qed.

(** X17: a candidate on which the conversion raises is skipped: the normalised
    candidates and the whole record are those obtained without it, and
    every timestamp of the sorted sequence is the conversion of some other
    candidate. *)
Theorem unparseable_dropped (symbol : string) (tag : option string) (now : Z)
    (before after : list (candidate value)) (d : value) :
  to_utc d = None →
  normalize (before ++ Scalar d :: after) = normalize (before ++ after)
  ∧ package symbol tag now (before ++ Scalar d :: after)
    = package symbol tag now (before ++ after)
  ∧ ∀ x, x ∈ sorted_clean (normalize (before ++ Scalar d :: after)) →
         ∃ c, Scalar c ∈ (before ++ after)%list ∧ to_utc c = Some x.
Proof.
  intros Hd.
  assert (normalize (before ++ Scalar d :: after) = normalize (before ++ after))
    as Hn.
  { unfold normalize. rewrite !omap_app. csimpl. by rewrite Hd. }
  split; [done|]. split.
  - unfold package. rewrite Hn. unfold unhashable. rewrite !omap_app. by csimpl.
  - intros x Hx. rewrite Hn in Hx.
    apply (proj1 (sorted_clean_elem _ _)) in Hx.
    by apply (proj1 (normalize_elem _ _)) in Hx.
Qed.

(** *** The selection over instants *)

(** X16: when no candidate is an array and none converts to the null timestamp,
    the normalised candidates are deduplicated and ascending; the date of
    the record is the earliest instant at or after the clock's instant when
    there is one, otherwise the latest instant; with no normalised
    candidate the record has no date and carries Error. *)
Theorem selection_over_instants w (symbol : string) t :
  yf_Ticker w symbol = Returned t →
  unhashable (dt_candidates (fetch_candidates t)) = None →
  NaT ∉ normalize (dt_candidates (fetch_candidates t)) →
  let res := fetch_from_yf w symbol in
  let now := utc_now w symbol in
  let cands := normalize (dt_candidates (fetch_candidates t)) in
  let clean := instants (sorted_clean cands) in
  sorted_clean cands = Instant <$> clean
  ∧ StronglySorted Z.lt clean
  ∧ (∀ x, x ∈ clean ↔ Instant x ∈ cands)
  ∧ ((∃ d, d ∈ clean ∧ now ≤ d) →
     ∃ m, NextEarningsDate res = Some (isoformat m) ∧ m ∈ clean ∧ now ≤ m
          ∧ ∀ d, d ∈ clean → now ≤ d → m ≤ d)
  ∧ (clean ≠ [] → (∀ d, d ∈ clean → d < now) →
     ∃ m, NextEarningsDate res = Some (isoformat m) ∧ m ∈ clean
          ∧ ∀ d, d ∈ clean → d ≤ m)
  ∧ (clean = [] →
     NextEarningsDate res = None
     ∧ Error res = Some "No date found via yfinance endpoints").
Proof.
  intros Ht Hh Hnat res now cands clean.
  assert (sorted_clean cands = Instant <$> clean) as Hclean.
  { subst clean. rewrite Instant_instants; [done|].
    by rewrite sorted_clean_elem. }
  assert (clean = sorted_set (instants cands)) as Hset.
  { subst clean. rewrite sorted_clean_instants by done.
    apply instants_Instant. }
  assert (StronglySorted Z.lt clean) as Hs
    by (rewrite Hset; apply sorted_set_sorted).
  assert (∀ x, x ∈ clean ↔ Instant x ∈ cands) as Hel.
  { intros x. rewrite Hset, sorted_set_elem. apply instants_elem. }
  assert (res = package symbol (used (fetch_candidates t)) now
                  (dt_candidates (fetch_candidates t))) as Hres.
  { subst res. unfold fetch_from_yf. by rewrite Ht. }
  split; [done|]. split; [done|]. split; [done|]. split; [|split].
  - intros (d0 & Hd0 & Hnow).
    destruct (next_dt_upcoming now clean d0 Hs Hd0 Hnow)
      as (m & Hm & Hin & Hle & Hmin).
    exists m. split; [|done]. rewrite Hres.
    assert (cands ≠ []) as Hne.
    { intros Hnil. apply Hel in Hd0. rewrite Hnil in Hd0.
      by apply elem_of_nil in Hd0. }
    destruct (package_success symbol (used (fetch_candidates t)) now _ Hh Hne)
      as (d & Hd & ->).
    fold cands in Hd. rewrite Hclean, Hm in Hd. by injection Hd as <-.
  - intros Hne Hpast.
    destruct (next_dt_fallback now clean Hs Hne Hpast) as (m & Hm & Hin & Hmax).
    exists m. split; [|done]. rewrite Hres.
    assert (cands ≠ []) as Hcne.
    { intros Hnil. apply Hel in Hin. rewrite Hnil in Hin.
      by apply elem_of_nil in Hin. }
    destruct (package_success symbol (used (fetch_candidates t)) now _ Hh Hcne)
      as (d & Hd & ->).
    fold cands in Hd. rewrite Hclean, Hm in Hd. by injection Hd as <-.
  - intros Hnil. rewrite Hnil in Hclean.
    apply (proj1 (sorted_clean_nil _)) in Hclean.
    rewrite Hres, package_failure by done. done.
Qed.

(** X15: as the clock advances the date selected among the same instants never
    moves back. *)
Theorem next_dt_monotone (clean : list stamp) (now now' m m' : Z) :
  NaT ∉ clean →
  now ≤ now' →
  next_dt now (sorted_clean clean) = Some (Instant m) →
  next_dt now' (sorted_clean clean) = Some (Instant m') →
  m ≤ m'.
Proof.
  intros Hnat Hle. rewrite sorted_clean_instants by done.
  set (l := sorted_set (instants clean)). intros Hm Hm'.
  pose proof (sorted_set_sorted (instants clean)) as Hs. fold l in Hs.
  pose proof (next_dt_elem _ _ _ Hm) as Hin.
  apply list_elem_of_fmap in Hin as (z & [= <-] & Hin).
  destruct (decide (Exists (λ d, now' ≤ d) l)) as [Hex|Hno].
  - apply Exists_exists in Hex as (d0 & Hd0 & Hd0').
    destruct (next_dt_upcoming now' _ d0 Hs Hd0 Hd0')
      as (m1 & Hm1 & Hin1 & Hnow1 & _).
    assert (now ≤ d0) as Hd0'' by lia.
    destruct (next_dt_upcoming now _ d0 Hs Hd0 Hd0'')
      as (m0 & Hm0 & _ & _ & Hmin).
    rewrite Hm1 in Hm'. injection Hm' as <-.
    rewrite Hm0 in Hm. injection Hm as <-.
    apply Hmin; [done|lia].
  - assert (∀ d, d ∈ l → d < now') as Hpast.
    { intros d Hd. destruct (decide (now' ≤ d)); [|lia].
      destruct Hno. apply Exists_exists. by exists d. }
    assert (l ≠ []) as Hne
      by (intros Hnil; rewrite Hnil in Hin; by apply elem_of_nil in Hin).
    destruct (next_dt_fallback now' _ Hs Hne Hpast) as (m1 & Hm1 & _ & Hmax).
    rewrite Hm1 in Hm'. injection Hm' as <-. by apply Hmax.
Qed.

(** *** The record *)

(** X12: the Error text of a record is the message of the exception of
    [yf.Ticker], or the message of the [TypeError] that [set(clean)] raises
    on an array among the candidates, or the fixed text of a resolution
    that found no date; what the two endpoints raise never shows. *)
Theorem error_text_origin w (symbol msg : string) :
  Error (fetch_from_yf w symbol) = Some msg →
  yf_Ticker w symbol = Raised msg
  ∨ ∃ t, yf_Ticker w symbol = Returned t
         ∧ (Array msg ∈ dt_candidates (fetch_candidates t)
            ∧ Array msg ∉ modern_candidates t
            ∨ msg = "No date found via yfinance endpoints"
              ∧ normalize (dt_candidates (fetch_candidates t)) = []).
Proof.
  unfold fetch_from_yf. destruct (yf_Ticker w symbol) as [t|e].
  - unfold resolve. intros Herr. right. exists t. split; [done|].
    destruct (unhashable (dt_candidates (fetch_candidates t))) as [m|] eqn:Hh.
    + rewrite (package_raised _ _ _ _ m Hh) in Herr. injection Herr as ->.
      left. split; [by apply unhashable_Some|].
      by apply (proj1 (unhashable_None _) (modern_candidates_scalar t)).
    + right.
      destruct (decide (normalize (dt_candidates (fetch_candidates t)) = []))
        as [Hnil|Hne].
      * rewrite package_failure in Herr by done. by injection Herr as <-.
      * destruct (package_success symbol (used (fetch_candidates t))
                    (utc_now w symbol) _ Hh Hne) as (d & _ & Heq).
        by rewrite Heq in Herr.
  - intros [= <-]. by left.
Qed.

(** X13: without arrays and null timestamps the record depends on the
    candidates through the set of their instants only: two candidate lists
    with the same normalised instants, in whatever order and however often
    repeated, give the same record. *)
Theorem package_order_insensitive (symbol : string) (tag : option string)
    (now : Z) cands cands' :
  unhashable cands = None → unhashable cands' = None →
  NaT ∉ normalize cands →
  (∀ x, x ∈ normalize cands ↔ x ∈ normalize cands') →
  package symbol tag now cands = package symbol tag now cands'.
Proof.
  intros Hh Hh' Hnat Hext. unfold package. rewrite Hh, Hh'.
  assert (NaT ∉ normalize cands') as Hnat' by by rewrite <- Hext.
  rewrite !sorted_clean_instants by done.
  assert (sorted_set (instants (normalize cands))
          = sorted_set (instants (normalize cands'))) as ->; [|done].
  apply ascending_unique; [apply sorted_set_sorted..|].
  intros x. rewrite !sorted_set_elem, !instants_elem. apply Hext.
Qed.

(** X14: the Details of a record with a date count the distinct timestamps the
    normalisation kept, the null timestamp for one: at least one, and no
    more than the raw candidates. *)
Theorem details_count w (symbol : string) :
  is_Some (NextEarningsDate (fetch_from_yf w symbol)) →
  ∃ t, yf_Ticker w symbol = Returned t
       ∧ let kept := normalize (dt_candidates (fetch_candidates t)) in
         let n := length (remove_dups kept) in
         Details (fetch_from_yf w symbol) = Some ("candidates=" +:+ pretty n)
         ∧ (1 ≤ n ≤ length (dt_candidates (fetch_candidates t)))%nat.
Proof.
  unfold fetch_from_yf. destruct (yf_Ticker w symbol) as [t|e];
    [|by intros [? ?]].
  intros Hsome. exists t. split; [done|]. cbv zeta.
  unfold resolve in *. destruct (package_dated _ _ _ _ Hsome) as [Hh Hne].
  set (kept := normalize (dt_candidates (fetch_candidates t))) in *.
  assert (sorted_clean kept ≡ₚ remove_dups kept) as Hperm.
  { apply NoDup_Permutation;
      [apply sorted_clean_NoDup|apply NoDup_remove_dups|].
    intros x. by rewrite sorted_clean_elem, elem_of_remove_dups. }
  destruct (package_success symbol (used (fetch_candidates t))
              (utc_now w symbol) _ Hh Hne) as (d & _ & ->).
  simpl. fold kept. rewrite Hperm. split; [done|]. split.
  - destruct kept as [|a kept'] eqn:E; [done|].
    assert (a ∈ remove_dups (a :: kept')) as Ha
      by (apply elem_of_remove_dups; left).
    destruct (remove_dups (a :: kept')); [by apply elem_of_nil in Ha|].
    simpl. lia.
  - etrans; [|apply normalize_length].
    apply submseteq_length, NoDup_submseteq; [apply NoDup_remove_dups|].
    intros x Hx. by apply (proj1 (elem_of_remove_dups _ _)).
Qed.

End ResolverFacts.

(** *** The resolver on the sample provider *)

Lemma null_timestamp_sample :
  yf_Ticker sample_world "NONE" = Returned (sample_ticker [Null])
  ∧ to_utc Null = Some NaT
  ∧ sorted_clean
      (normalize (dt_candidates (fetch_candidates (sample_ticker [Null]))))
    = [NaT]
  ∧ fetch_from_yf sample_world "NONE"
    = {| Symbol := "NONE"; NextEarningsDate := Some "NaT";
         Source := Some "get_earnings_dates";
         Details := Some "candidates=1"; Error := None |}.
Proof.
  assert ([Null] ≠ []) as Hne by discriminate.
  assert (Forall (λ d, to_utc d = Some NaT) [Null]) as Hall
    by (constructor; [reflexivity|constructor]).
  destruct (null_timestamp_selected (sample_ticker [Null]) 1709251200 "NONE"
              [Null] [] eq_refl Hne Hall) as (Hclean & _ & Hres).
  split; [reflexivity|]. split; [reflexivity|]. split; [exact Hclean|].
  exact Hres.
Defined.

(** C3 as stated fails where every modern candidate is dropped by the
    normalisation: the modern strategy has yielded a raw candidate, and the
    record has no Source. *)
Lemma all_dropped_no_source :
  let t := sample_ticker [OutOfBounds 253402214400] in
  let res := resolve t 1709251200 "BAD" in
  modern_candidates t ≠ []
  ∧ Source res = None
  ∧ Source res ≠ Some "get_earnings_dates".
Proof. intros t res. by vm_compute. Qed.

Lemma strategy_precedence_modern :
  let t := sample_ticker [Moment 1704844800; Moment 1718409600] in
  modern_candidates t ≠ []
  ∧ normalize (modern_candidates t) ≠ []
  ∧ queried (fetch_candidates t) = [GetEarningsDates]
  ∧ used (fetch_candidates t) = Some "get_earnings_dates"
  ∧ Source (resolve t 1709251200 "AAPL") = Some "get_earnings_dates".
Proof.
  intros t.
  assert (modern_candidates t ≠ []) as Hm by by vm_compute.
  assert (normalize (modern_candidates t) ≠ []) as Hn by by vm_compute.
  destruct (proj1 (strategy_precedence t 1709251200 "AAPL") Hm)
    as (Hq & Hu & _ & Hs & _).
  split; [exact Hm|]. split; [exact Hn|]. split; [exact Hq|].
  split; [exact Hu|]. exact (Hs Hn).
Defined.

(** The empty string converts to the null timestamp and is kept, where
    "N/A" makes the conversion raise and is dropped: the record made of the
    two has the null timestamp for its date and counts one candidate. *)
Lemma null_candidate_sample :
  to_utc (Junk "") = Some NaT
  ∧ to_utc (Junk "N/A") = None
  ∧ normalize ([] ++ Scalar (Junk "") :: [Scalar (Junk "N/A")]) = [NaT]
  ∧ NaT ∈ sorted_clean
            (normalize ([] ++ Scalar (Junk "") :: [Scalar (Junk "N/A")]))
  ∧ package "X" (Some "calendar:index") 1709251200
      [Scalar (Junk ""); Scalar (Junk "N/A")]
    = {| Symbol := "X"; NextEarningsDate := Some "NaT";
         Source := Some "calendar:index";
         Details := Some "candidates=1"; Error := None |}.
Proof.
  assert (to_utc (Junk "") = Some NaT) as Hd by reflexivity.
  destruct (null_candidate_kept [] [Scalar (Junk "N/A")] (Junk "") Hd)
    as (Hn & Hin & _).
  split; [reflexivity|]. split; [reflexivity|]. split; [exact Hn|].
  split; [exact Hin|]. reflexivity.
Defined.

Lemma unparseable_dropped_sample :
  to_utc (Junk "N/A") = None
  ∧ normalize ([Scalar (Moment 1704844800)] ++ Scalar (Junk "N/A")
               :: [Scalar (Moment 1718409600)])
    = [Instant 1704844800; Instant 1718409600]
  ∧ package "AAPL" None 1709251200
      ([Scalar (Moment 1704844800)] ++ Scalar (Junk "N/A")
       :: [Scalar (Moment 1718409600)])
    = package "AAPL" None 1709251200
        ([Scalar (Moment 1704844800)] ++ [Scalar (Moment 1718409600)]).
Proof.
  assert (to_utc (Junk "N/A") = None) as Hd by reflexivity.
  destruct (unparseable_dropped "AAPL" None 1709251200
              [Scalar (Moment 1704844800)] [Scalar (Moment 1718409600)]
              (Junk "N/A") Hd) as (Hn & Hp & _).
  split; [reflexivity|]. split; [exact Hn|exact Hp].
Defined.

Lemma fallback_label_unreachable_sample :
  is_Some (NextEarningsDate (fetch_from_yf sample_world "AAPL"))
  ∧ ∃ t tag,
      yf_Ticker sample_world "AAPL" = Returned t
      ∧ used (fetch_candidates t) = Some tag
      ∧ tag ∈ strategy_tags
      ∧ Source (fetch_from_yf sample_world "AAPL") = Some tag
      ∧ tag ≠ "yfinance".
Proof.
  assert (is_Some (NextEarningsDate (fetch_from_yf sample_world "AAPL")))
    as Hsome by (vm_compute; eauto).
  split; [exact Hsome|].
  exact (fallback_label_unreachable sample_world "AAPL" Hsome).
Defined.

(** The first case of the selection rule the specification works out, on
    the sample provider. *)
Lemma selection_over_instants_sample :
  let t := sample_ticker [Moment 1704844800; Moment 1718409600] in
  yf_Ticker sample_world "AAPL" = Returned t
  ∧ sorted_clean (normalize (dt_candidates (fetch_candidates t)))
    = [Instant 1704844800; Instant 1718409600]
  ∧ ∃ m, NextEarningsDate (fetch_from_yf sample_world "AAPL")
         = Some (isoformat m)
         ∧ 1709251200 ≤ m
         ∧ ∀ d, d ∈ [1704844800; 1718409600] → 1709251200 ≤ d → m ≤ d.
Proof.
  intros t.
  assert (NaT ∉ normalize (dt_candidates (fetch_candidates t))) as Hnat.
  { apply (bool_decide_unpack _). vm_compute. exact I. }
  destruct (selection_over_instants sample_world "AAPL" t eq_refl eq_refl Hnat)
    as (_ & _ & _ & Hup & _).
  split; [reflexivity|]. split; [reflexivity|].
  destruct Hup as (m & Hm & _ & Hle & Hmin).
  { exists 1718409600. split; [|by vm_compute].
    apply (bool_decide_unpack _). vm_compute. exact I. }
  exists m. split; [exact Hm|]. split; [exact Hle|exact Hmin].
Defined.

Lemma next_dt_monotone_sample :
  next_dt 1709251200
    (sorted_clean [Instant 1704844800; Instant 1718409600])
  = Some (Instant 1718409600)
  ∧ next_dt 1720000000
      (sorted_clean [Instant 1704844800; Instant 1718409600])
    = Some (Instant 1718409600)
  ∧ 1718409600 ≤ 1718409600.
Proof.
  assert (next_dt 1709251200
            (sorted_clean [Instant 1704844800; Instant 1718409600])
          = Some (Instant 1718409600)) as H1 by by vm_compute.
  assert (next_dt 1720000000
            (sorted_clean [Instant 1704844800; Instant 1718409600])
          = Some (Instant 1718409600)) as H2 by by vm_compute.
  assert (1709251200 ≤ 1720000000) as Hle by lia.
  assert (NaT ∉ [Instant 1704844800; Instant 1718409600]) as Hnat.
  { apply (bool_decide_unpack _). vm_compute. exact I. }
  split; [exact H1|]. split; [exact H2|].
  exact (next_dt_monotone [Instant 1704844800; Instant 1718409600]
           1709251200 1720000000 1718409600 1718409600 Hnat Hle H1 H2).
Defined.

(** The three origins of an Error text on the sample provider: [yf.Ticker]
    raising for MSFT, the array among the candidates of RANGE, and BAD's
    one date dropped. *)
Lemma error_text_origin_sample :
  Error (fetch_from_yf sample_world "MSFT") = Some "X"
  ∧ Error (fetch_from_yf sample_world "RANGE")
    = Some "unhashable type: 'numpy.ndarray'"
  ∧ Error (fetch_from_yf sample_world "BAD")
    = Some "No date found via yfinance endpoints"
  ∧ (yf_Ticker sample_world "RANGE"
     = Raised "unhashable type: 'numpy.ndarray'"
     ∨ ∃ t, yf_Ticker sample_world "RANGE" = Returned t
            ∧ (Array "unhashable type: 'numpy.ndarray'"
                 ∈ dt_candidates (fetch_candidates t)
               ∧ Array "unhashable type: 'numpy.ndarray'"
                 ∉ modern_candidates t
               ∨ "unhashable type: 'numpy.ndarray'"
                 = "No date found via yfinance endpoints"
                 ∧ normalize (dt_candidates (fetch_candidates t)) = [])).
Proof.
  split; [reflexivity|]. split; [reflexivity|]. split; [reflexivity|].
  exact (error_text_origin sample_world "RANGE"
           "unhashable type: 'numpy.ndarray'" eq_refl).
Defined.

Lemma package_order_sample :
  package "AAPL" None 1709251200
    [Scalar (Moment 1718409600); Scalar (Moment 1704844800);
     Scalar (Moment 1718409600); Scalar (Junk "N/A")]
  = package "AAPL" None 1709251200
      [Scalar (Moment 1704844800); Scalar (Moment 1718409600)].
Proof.
  apply package_order_insensitive; [reflexivity|reflexivity| |].
  - apply (bool_decide_unpack _). vm_compute. exact I.
  - intros x.
    change (normalize [Scalar (Moment 1718409600); Scalar (Moment 1704844800);
                       Scalar (Moment 1718409600); Scalar (Junk "N/A")])
      with [Instant 1718409600; Instant 1704844800; Instant 1718409600].
    change (normalize [Scalar (Moment 1704844800); Scalar (Moment 1718409600)])
      with [Instant 1704844800; Instant 1718409600].
    rewrite !elem_of_cons, !elem_of_nil. tauto.
Defined.

Lemma details_count_sample :
  is_Some (NextEarningsDate (fetch_from_yf sample_world "AAPL"))
  ∧ Details (fetch_from_yf sample_world "AAPL") = Some "candidates=2"
  ∧ ∃ t, yf_Ticker sample_world "AAPL" = Returned t
         ∧ Details (fetch_from_yf sample_world "AAPL")
           = Some ("candidates="
                   +:+ pretty (length (remove_dups (normalize
                         (dt_candidates (fetch_candidates t)))))).
Proof.
  assert (is_Some (NextEarningsDate (fetch_from_yf sample_world "AAPL")))
    as Hsome by (vm_compute; eauto).
  split; [exact Hsome|]. split; [reflexivity|].
  destruct (details_count sample_world "AAPL" Hsome) as (t & Ht & Hd & _).
  exists t. split; [exact Ht|exact Hd].
Defined.

(** ** Letter case and white space *)

Lemma ascii_upper_char_idemp (c : Ascii.ascii) :
  ascii_upper_char (ascii_upper_char c) = ascii_upper_char c.
Proof. destruct c as [[] [] [] [] [] [] [] []]; reflexivity. Qed.

Lemma is_ascii_space_upper_char (c : Ascii.ascii) :
  is_ascii_space (ascii_upper_char c) = is_ascii_space c.
Proof. destruct c as [[] [] [] [] [] [] [] []]; reflexivity. Qed.

Lemma ascii_upper_char_ascii (c : Ascii.ascii) :
  bool_decide (Ascii.nat_of_ascii c < 128)%nat →
  bool_decide (Ascii.nat_of_ascii (ascii_upper_char c) < 128)%nat.
Proof. destruct c as [[] [] [] [] [] [] [] []]; vm_compute; tauto. Qed.

Lemma ascii_upper_idemp (s : string) :
  ascii_upper (ascii_upper s) = ascii_upper s.
Proof.
  induction s as [|c s IH]; [done|]. simpl.
  by rewrite ascii_upper_char_idemp, IH.
Qed.

Lemma ascii_upper_length (s : string) :
  String.length (ascii_upper s) = String.length s.
Proof. induction s as [|c s IH]; [done|]. simpl. by rewrite IH. Qed.

Lemma ascii_lstrip_upper (s : string) :
  ascii_lstrip (ascii_upper s) = ascii_upper (ascii_lstrip s).
Proof.
  induction s as [|c s IH]; [done|]. simpl.
  rewrite is_ascii_space_upper_char. by destruct (is_ascii_space c).
Qed.

Lemma ascii_rstrip_upper (s : string) :
  ascii_rstrip (ascii_upper s) = ascii_upper (ascii_rstrip s).
Proof.
  induction s as [|c s IH]; [done|]. simpl.
  rewrite IH, is_ascii_space_upper_char.
  destruct (ascii_rstrip s) as [|c' r']; simpl; [|done].
  by destruct (is_ascii_space c).
Qed.

Lemma ascii_strip_upper (s : string) :
  ascii_strip (ascii_upper s) = ascii_upper (ascii_strip s).
Proof. unfold ascii_strip. by rewrite ascii_rstrip_upper, ascii_lstrip_upper. Qed.

Lemma ascii_lstrip_idemp (s : string) :
  ascii_lstrip (ascii_lstrip s) = ascii_lstrip s.
Proof.
  induction s as [|c s IH]; [done|]. simpl.
  destruct (is_ascii_space c) eqn:Hc; [done|]. simpl. by rewrite Hc.
Qed.

Lemma ascii_rstrip_cons (c : Ascii.ascii) (s : string) :
  ascii_rstrip (String c s)
  = match ascii_rstrip s with
    | EmptyString =>
        if is_ascii_space c then EmptyString else String c EmptyString
    | r' => String c r'
    end.
Proof. reflexivity. Qed.

Lemma ascii_rstrip_idemp (s : string) :
  ascii_rstrip (ascii_rstrip s) = ascii_rstrip s.
Proof.
  induction s as [|c s IH]; [done|]. simpl.
  destruct (ascii_rstrip s) as [|c' r'] eqn:Hr.
  - destruct (is_ascii_space c) eqn:Hc; [done|]. simpl. by rewrite Hc.
  - rewrite ascii_rstrip_cons. by rewrite IH.
Qed.

Lemma ascii_rstrip_lstrip (s : string) :
  ascii_rstrip (ascii_lstrip s) = ascii_lstrip (ascii_rstrip s).
Proof.
  induction s as [|c s IH]; [done|]. simpl.
  destruct (is_ascii_space c) eqn:Hc.
  - rewrite IH. destruct (ascii_rstrip s) as [|c' r']; simpl; by rewrite ?Hc.
  - rewrite ascii_rstrip_cons.
    rewrite ?Hc. destruct (ascii_rstrip s); simpl; by rewrite ?Hc.
Qed.

Lemma ascii_strip_idemp (s : string) :
  ascii_strip (ascii_strip s) = ascii_strip s.
Proof.
  unfold ascii_strip.
  by rewrite ascii_rstrip_lstrip, ascii_rstrip_idemp, ascii_lstrip_idemp.
Qed.

Lemma ascii_lstrip_length (s : string) :
  (String.length (ascii_lstrip s) ≤ String.length s)%nat
  ∧ (String.length (ascii_lstrip s) = String.length s → ascii_lstrip s = s).
Proof.
  induction s as [|c s [IHle IHeq]]; [done|]. simpl.
  destruct (is_ascii_space c); simpl; [|done]. split; [lia|]. lia.
Qed.

Lemma ascii_rstrip_length (s : string) :
  (String.length (ascii_rstrip s) ≤ String.length s)%nat
  ∧ (String.length (ascii_rstrip s) = String.length s → ascii_rstrip s = s).
Proof.
  induction s as [|c s [IHle IHeq]]; [done|]. simpl.
  destruct (ascii_rstrip s) as [|c' r'] eqn:Hr.
  - destruct (is_ascii_space c); simpl in *.
    + split; [lia|]. lia.
    + split; [lia|]. intros Hlen. rewrite <- IHeq; [done|]. lia.
  - simpl in *. split; [lia|]. intros Hlen. rewrite IHeq; [done|]. lia.
Qed.

Lemma ascii_strip_length (s : string) :
  String.length (ascii_strip s) = String.length s → ascii_strip s = s.
Proof.
  unfold ascii_strip. intros Hlen.
  destruct (ascii_lstrip_length (ascii_rstrip s)) as [Hl Hleq].
  destruct (ascii_rstrip_length s) as [Hr Hreq].
  rewrite Hleq by lia. apply Hreq. lia.
Qed.

Lemma ascii_text_cons (c : Ascii.ascii) (s : string) :
  ascii_text (String c s)
  ↔ bool_decide (Ascii.nat_of_ascii c < 128)%nat ∧ ascii_text s.
Proof. simpl. apply andb_True. Qed.

Lemma ascii_upper_ascii (s : string) : ascii_text s → ascii_text (ascii_upper s).
Proof.
  induction s as [|c s IH]; [done|].
  change (ascii_upper (String c s))
    with (String (ascii_upper_char c) (ascii_upper s)).
  rewrite !ascii_text_cons. intros [Hc Hs].
  split; [by apply ascii_upper_char_ascii|by apply IH].
Qed.

Lemma ascii_lstrip_ascii (s : string) :
  ascii_text s → ascii_text (ascii_lstrip s).
Proof.
  induction s as [|c s IH]; [done|]. intros Hs. simpl.
  destruct (is_ascii_space c); [|done].
  apply IH. by apply ascii_text_cons in Hs as [_ Hs].
Qed.

Lemma ascii_rstrip_ascii (s : string) :
  ascii_text s → ascii_text (ascii_rstrip s).
Proof.
  induction s as [|c s IH]; [done|]. intros Hs.
  apply ascii_text_cons in Hs as [Hc Hs]. specialize (IH Hs).
  rewrite ascii_rstrip_cons. destruct (ascii_rstrip s) as [|c' r'].
  - destruct (is_ascii_space c); [done|]. by apply ascii_text_cons.
  - by apply ascii_text_cons.
Qed.

Lemma ascii_strip_ascii (s : string) :
  ascii_text s → ascii_text (ascii_strip s).
Proof. intros Hs. by apply ascii_lstrip_ascii, ascii_rstrip_ascii. Qed.

Section PyStrFacts.
Context `{!PyStr}.

(** On ASCII text the cleaning of a symbol is the ASCII one. *)
Lemma upper_strip_ascii (s : string) :
  ascii_text s → upper (strip s) = ascii_upper (ascii_strip s).
Proof.
  intros Hs. rewrite (strip_ascii s Hs).
  apply upper_ascii. by apply ascii_strip_ascii.
Qed.

Lemma upper_empty : upper "" = "".
Proof. by rewrite upper_ascii. Qed.

Lemma strip_empty : strip "" = "".
Proof. by rewrite strip_ascii. Qed.

End PyStrFacts.

(** ** Symbols of the upload *)

Lemma unique_elem (l : list string) (x : string) : x ∈ unique l ↔ x ∈ l.
Proof.
  induction l as [|a l IH]; [done|]. simpl.
  rewrite !elem_of_cons, list_elem_of_filter, IH.
  destruct (decide (x = a)); naive_solver.
Qed.

Lemma unique_NoDup (l : list string) : NoDup (unique l).
Proof.
  induction l as [|a l IH]; simpl; constructor.
  - rewrite list_elem_of_filter. naive_solver.
  - by apply NoDup_filter.
Qed.

Lemma filter_all {A} (P : A → Prop) `{!∀ x, Decision (P x)} (l : list A) :
  Forall P l → filter P l = l.
Proof.
  induction 1 as [|x l Hx Hl IH]; [done|].
  by rewrite filter_cons_True, IH.
Qed.

Lemma unique_NoDup_id (l : list string) : NoDup l → unique l = l.
Proof.
  induction 1 as [|x l Hx Hl IH]; [done|]. simpl. rewrite IH. f_equal.
  apply filter_all, Forall_forall. intros y Hy ->. done.
Qed.

Lemma dropna_elem (cells : list cell) (s : string) :
  s ∈ dropna cells ↔ Text s ∈ cells.
Proof.
  unfold dropna. rewrite list_elem_of_omap. split.
  - intros ([s'|] & Hin & Heq); [|done]. by injection Heq as ->.
  - intros Hin. by exists (Text s).
Qed.

Lemma dropna_Text (l : list string) : dropna (Text <$> l) = l.
Proof.
  unfold dropna. induction l as [|a l IH]; [done|]. csimpl. by rewrite IH.
Qed.

Lemma replace_empty_Text (c : cell) (s : string) :
  replace_empty c = Text s ↔ s ≠ "" ∧ c = Text s.
Proof.
  destruct c as [s'|]; simpl; [|naive_solver].
  case_decide; naive_solver.
Qed.

Section SymbolFacts.
Context `{!PyStr, !Pandas}.

Lemma clean_symbols_cleaned (col : list cell) :
  clean_symbols col = unique (dropna (cleaned <$> col)).
Proof.
  unfold clean_symbols. do 2 f_equal. rewrite <- !list_fmap_compose.
  by apply list_fmap_ext.
Qed.

Lemma clean_symbols_NoDup (col : list cell) : NoDup (clean_symbols col).
Proof. apply unique_NoDup. Qed.

Lemma clean_symbols_elem (col : list cell) (s : string) :
  s ∈ clean_symbols col
  ↔ s ≠ ""
    ∧ ∃ c, c ∈ col
           ∧ str_method upper (str_method strip (astype_str c)) = Text s.
Proof.
  rewrite clean_symbols_cleaned, unique_elem, dropna_elem, list_elem_of_fmap.
  unfold cleaned. split.
  - intros (c & Hc & Hin). symmetry in Hc.
    apply replace_empty_Text in Hc as [Hne Hc]. eauto.
  - intros (Hne & c & Hin & Hc). exists c. split; [|done].
    symmetry. by apply replace_empty_Text.
Qed.

(** The symbol a cell with a text gives. *)
Lemma clean_symbols_Text (col : list cell) (t : string) :
  Text t ∈ col → upper (strip t) ≠ "" → upper (strip t) ∈ clean_symbols col.
Proof.
  intros Hin Hne. apply clean_symbols_elem. split; [done|].
  by exists (Text t).
Qed.

Lemma ascii_column_elem (col : list cell) (c : cell) (s : string) :
  ascii_column col → c ∈ col → astype_str c = Text s → ascii_text s.
Proof.
  unfold ascii_column. rewrite Forall_forall. intros Hall Hin Hs.
  specialize (Hall c Hin). by rewrite Hs in Hall.
Qed.

(** Over ASCII text a dispatched symbol is the ASCII cleaning of the text
    of a cell. *)
Lemma clean_symbols_ascii (col : list cell) (s : string) :
  ascii_column col → s ∈ clean_symbols col →
  s ≠ "" ∧ ∃ t, ascii_text t ∧ s = ascii_upper (ascii_strip t).
Proof.
  intros Hcol Hs. apply clean_symbols_elem in Hs as (Hne & c & Hin & Hc).
  split; [done|]. destruct (astype_str c) as [t|] eqn:Ht; [|done].
  pose proof (ascii_column_elem col c t Hcol Hin Ht) as Hascii.
  exists t. split; [done|]. simpl in Hc. injection Hc as <-.
  by apply upper_strip_ascii.
Qed.

(** X4: every dispatched symbol is in normal form: it is not empty, and over
    ASCII text it has no white space at either end and upper-casing leaves
    it as it is. *)
Theorem clean_symbols_normal_form (col : list cell) (s : string) :
  ascii_column col →
  s ∈ clean_symbols col → s ≠ "" ∧ strip s = s ∧ upper s = s.
Proof.
  intros Hcol Hs.
  destruct (clean_symbols_ascii col s Hcol Hs) as (Hne & t & Ht & ->).
  assert (ascii_text (ascii_upper (ascii_strip t))) as Hascii
    by by apply ascii_upper_ascii, ascii_strip_ascii.
  split; [done|]. split.
  - rewrite strip_ascii by done.
    by rewrite ascii_strip_upper, ascii_strip_idemp.
  - rewrite upper_ascii by done. apply ascii_upper_idemp.
Qed.

(** X5: cleaning is idempotent over ASCII text: a column made of the symbols a
    cleaning gave cleans to these same symbols, in the same order. *)
Theorem clean_symbols_idempotent (col : list cell) :
  ascii_column col →
  clean_symbols (Text <$> clean_symbols col) = clean_symbols col.
Proof.
  intros Hcol.
  assert (Forall (λ s, s ≠ "" ∧ strip s = s ∧ upper s = s)
            (clean_symbols col)) as Hnf.
  { apply Forall_forall. intros s Hs.
    destruct (clean_symbols_ascii col s Hcol Hs) as (Hne & t & Ht & ->).
    assert (ascii_text (ascii_upper (ascii_strip t))) as Hascii
      by by apply ascii_upper_ascii, ascii_strip_ascii.
    split; [done|].
    rewrite strip_ascii, upper_ascii by done.
    by rewrite ascii_strip_upper, ascii_strip_idemp, ascii_upper_idemp. }
  pose proof (clean_symbols_NoDup col) as Hnd.
  revert Hnf Hnd. generalize (clean_symbols col). intros l Hnf Hnd.
  rewrite clean_symbols_cleaned, <- list_fmap_compose.
  rewrite (list_fmap_ext (cleaned ∘ Text) Text l).
  - rewrite dropna_Text. by apply unique_NoDup_id.
  - intros i s Hi. simpl.
    pose proof (proj1 (Forall_forall _ _) Hnf s
                  (list_elem_of_lookup_2 _ _ _ Hi)) as (Hne & Hstrip & Hup).
    unfold cleaned. simpl. rewrite Hstrip, Hup. simpl. by case_decide.
Qed.

End SymbolFacts.

(** ** Columns of a table *)

Lemma get_column_elem (name : string) (df : DataFrame) (cells : list cell) :
  get_column name df = Some cells → (name, cells) ∈ df.
Proof.
  induction df as [|[c old] df IH]; simpl; [done|].
  case_decide as Hc.
  - intros [= ->]. subst. left.
  - intros Hget. right. by apply IH.
Qed.

Lemma get_column_None (name : string) (df : DataFrame) :
  get_column name df = None ↔ name ∉ df.*1.
Proof.
  induction df as [|[c old] df IH]; simpl.
  - split; [|done]. intros _ Hin. by apply elem_of_nil in Hin.
  - rewrite not_elem_of_cons. case_decide as Hc; naive_solver.
Qed.

Lemma get_column_app_l (name : string) (df1 df2 : DataFrame)
    (cells : list cell) :
  get_column name df1 = Some cells →
  get_column name (df1 ++ df2) = Some cells.
Proof.
  induction df1 as [|[c old] df1 IH]; simpl; [done|]. by case_decide.
Qed.

Lemma get_column_app_r (name : string) (df1 df2 : DataFrame) :
  name ∉ df1.*1 → get_column name (df1 ++ df2) = get_column name df2.
Proof.
  induction df1 as [|[c old] df1 IH]; simpl; [done|].
  rewrite not_elem_of_cons. intros [Hne Hnotin].
  case_decide; [by subst|]. by apply IH.
Qed.

Lemma get_set_column (name : string) (cells : list cell) (df : DataFrame) :
  get_column name (set_column name cells df) = Some cells.
Proof.
  induction df as [|[c old] df IH]; simpl.
  - by case_decide.
  - case_decide as Hc; simpl; by case_decide.
Qed.

Lemma get_set_column_ne (name other : string) (cells : list cell)
    (df : DataFrame) :
  other ≠ name →
  get_column other (set_column name cells df) = get_column other df.
Proof.
  intros Hne. induction df as [|[c old] df IH]; simpl.
  - by case_decide.
  - case_decide as Hc; simpl; case_decide; subst; done.
Qed.

Lemma set_column_fresh (name : string) (cells : list cell) (df : DataFrame) :
  name ∉ df.*1 → set_column name cells df = df ++ [(name, cells)].
Proof.
  induction df as [|[c old] df IH]; simpl; [done|].
  rewrite not_elem_of_cons. intros [Hne Hnotin].
  case_decide; [by subst|]. by rewrite IH.
Qed.

Lemma set_column_names (name other : string) (cells : list cell)
    (df : DataFrame) :
  other ∈ (set_column name cells df).*1 ↔ other = name ∨ other ∈ df.*1.
Proof.
  induction df as [|[c old] df IH]; simpl.
  - rewrite list_elem_of_singleton, elem_of_nil. naive_solver.
  - case_decide as Hc; simpl; rewrite !elem_of_cons; [naive_solver|].
    rewrite IH. naive_solver.
Qed.

Lemma get_column_filter_ne (name other : string) (df : DataFrame) :
  other ≠ name →
  get_column other (filter (λ col, col.1 ≠ name) df) = get_column other df.
Proof.
  intros Hne. induction df as [|[c old] df IH]; [done|].
  rewrite filter_cons. simpl. case_decide as Hc; simpl.
  - case_decide; [done|]. apply IH.
  - subst c. case_decide; [by subst|]. apply IH.
Qed.

Lemma filter_fresh (name : string) (df : DataFrame) :
  name ∉ df.*1 → filter (λ col, col.1 ≠ name) df = df.
Proof.
  induction df as [|[c old] df IH]; [done|]. simpl.
  rewrite not_elem_of_cons. intros [Hne Hnotin].
  rewrite filter_cons_True by (simpl; congruence). by rewrite IH.
Qed.

(** ** The batch and the merge *)

Section AppFacts.
Context {value : Type} `{!Dates value, !PyStr, !Pandas}.
Implicit Types (w : World value) (raw merged : DataFrame).

Lemma fetch_symbol w (s : string) : Symbol (fetch_from_yf w s) = s.
Proof.
  unfold fetch_from_yf, resolve, package.
  destruct (yf_Ticker w s); simpl; [|done].
  destruct (unhashable _); [done|]. by destruct (next_dt _ _).
Qed.

(** A record has a date or an Error. *)
Lemma fetch_date_or_error w (s : string) :
  is_Some (NextEarningsDate (fetch_from_yf w s))
  ∨ is_Some (Error (fetch_from_yf w s)).
Proof.
  unfold fetch_from_yf, resolve, package.
  destruct (yf_Ticker w s); simpl; [|right; eauto].
  destruct (unhashable _); simpl; [right; eauto|].
  destruct (next_dt _ _); simpl; [left|right]; eauto.
Qed.

Lemma run_batch_Permutation w (sched : list nat) (symbols : list string) :
  run_batch w sched symbols ≡ₚ fetch_from_yf w <$> symbols.
Proof.
  unfold run_batch.
  rewrite <- (length_fmap (fetch_from_yf w) symbols).
  apply as_completed_Permutation.
Qed.

Lemma run_batch_symbols w (sched : list nat) (symbols : list string) :
  Symbol <$> run_batch w sched symbols ≡ₚ symbols.
Proof.
  rewrite run_batch_Permutation, <- list_fmap_compose.
  rewrite (list_fmap_ext (Symbol ∘ fetch_from_yf w) id symbols).
  - by rewrite list_fmap_id.
  - intros i s _. apply fetch_symbol.
Qed.

Lemma out_map_index (out : list Result) :
  ((λ r, (Symbol r, r)) <$> out).*1 = Symbol <$> out.
Proof. by rewrite <- list_fmap_compose. Qed.

(** The lookup table holds, for each dispatched symbol, the record of that
    symbol's own resolution, and nothing else. *)
Lemma out_map_lookup w (sched : list nat) (symbols : list string)
    (k : string) :
  NoDup symbols →
  out_map (run_batch w sched symbols) !! k
  = if decide (k ∈ symbols) then Some (fetch_from_yf w k) else None.
Proof.
  intros Hnd. unfold out_map. case_decide as Hk.
  - apply elem_of_list_to_map_1.
    + rewrite out_map_index, run_batch_symbols. done.
    + apply list_elem_of_fmap. exists (fetch_from_yf w k).
      rewrite fetch_symbol. split; [done|].
      rewrite run_batch_Permutation. by apply list_elem_of_fmap_2.
  - apply not_elem_of_list_to_map_1.
    by rewrite out_map_index, run_batch_symbols.
Qed.

Lemma joined_run_batch w (sched : list nat) (col : list cell)
    (field : Result → option string) (k : string) :
  joined (out_map (run_batch w sched (clean_symbols col))) field (Text k)
  = expected_cell w (clean_symbols col) field k.
Proof.
  unfold joined, expected_cell.
  rewrite out_map_lookup by apply clean_symbols_NoDup.
  by case_decide.
Qed.

Lemma joined_columns_names (m : gmap string Result) (keys : list cell) :
  (joined_columns m keys).*1 = result_columns.
Proof. reflexivity. Qed.

Lemma joined_columns_get (m : gmap string Result) (keys : list cell)
    (name : string) (field : Result → option string) :
  (name, field) ∈ result_fields →
  get_column name (joined_columns m keys) = Some (joined m field <$> keys).
Proof.
  unfold result_fields. rewrite !elem_of_cons, elem_of_nil.
  intros [[= -> ->]|[[= -> ->]|[[= -> ->]|[[= -> ->]|[]]]]]; reflexivity.
Qed.

Lemma helper_not_result_column : "_SYMBOL_UPPER_" ∉ result_columns.
Proof.
  unfold result_columns, result_fields. simpl.
  rewrite !elem_of_cons, elem_of_nil. intros [|[|[|[|[]]]]]; discriminate.
Qed.

Lemma result_field_column (name : string) (field : Result → option string) :
  (name, field) ∈ result_fields → name ∈ result_columns.
Proof.
  intros Hnf. unfold result_columns. apply list_elem_of_fmap.
  by exists (name, field).
Qed.

(** Without a clash of column names the merge appends the four result
    columns to the uploaded table and changes nothing else. *)
Lemma merge_fresh raw (col : list cell) (out : list Result) :
  get_column "Symbol" raw = Some col →
  "_SYMBOL_UPPER_" ∉ raw.*1 →
  (∀ c, c ∈ result_columns → c ∉ raw.*1) →
  merge raw out
  = Returned (raw ++ joined_columns (out_map out) (merge_keys col)).
Proof.
  intros Hcol Hfresh Hdisj. unfold merge, join. rewrite Hcol.
  rewrite get_set_column, set_column_fresh by done.
  case_decide as Hov.
  { apply Exists_exists in Hov as (c & Hc & Hin).
    rewrite fmap_app, elem_of_app in Hin. destruct Hin as [Hin|Hin].
    - by destruct (Hdisj c Hc).
    - simpl in Hin. apply list_elem_of_singleton in Hin. subst c.
      by destruct helper_not_result_column. }
  unfold drop_column. case_decide as Hin.
  - f_equal. rewrite !filter_app, filter_fresh by done.
    rewrite filter_cons_False by (simpl; tauto).
    rewrite filter_nil, app_nil_r. f_equal.
  - destruct Hin. rewrite !fmap_app, !elem_of_app. left. right. left.
Qed.

(** Whenever the merge returns a table, each result column holds, row by
    row, the field of the record found under that row's key. *)
Lemma merge_result_column raw (col : list cell) (out : list Result) merged
    (name : string) (field : Result → option string) :
  get_column "Symbol" raw = Some col →
  merge raw out = Returned merged →
  (name, field) ∈ result_fields →
  get_column name merged
  = Some (joined (out_map out) field <$> merge_keys col).
Proof.
  intros Hcol Hm Hnf. unfold merge, join in Hm. rewrite Hcol in Hm.
  rewrite get_set_column in Hm. case_decide as Hov; [done|].
  unfold drop_column in Hm. case_decide; [|done]. injection Hm as <-.
  pose proof (result_field_column name field Hnf) as Hname.
  rewrite get_column_filter_ne.
  - rewrite get_column_app_r; [by apply joined_columns_get|].
    intros Hin. apply Hov, Exists_exists. by exists name.
  - intros ->. by destruct helper_not_result_column.
Qed.

(** Whenever the merge returns a table, every uploaded column other than
    one named like the helper column is still there with its cells. *)
Lemma merge_original_column raw (out : list Result) merged (name : string)
    (cells : list cell) :
  merge raw out = Returned merged →
  name ≠ "_SYMBOL_UPPER_" →
  get_column name raw = Some cells →
  get_column name merged = Some cells.
Proof.
  intros Hm Hne Hget. unfold merge, join in Hm.
  destruct (get_column "Symbol" raw) as [col|]; [|done].
  rewrite get_set_column in Hm. case_decide as Hov; [done|].
  unfold drop_column in Hm. case_decide; [|done]. injection Hm as <-.
  rewrite get_column_filter_ne by done.
  apply get_column_app_l. by rewrite get_set_column_ne.
Qed.

Lemma submitted_Submit (symbols : list string) :
  submitted (Submit <$> symbols) = symbols.
Proof. induction symbols as [|s l IH]; [done|]. simpl. by f_equal. Qed.

Lemma submitted_Fetched (out : list Result) :
  submitted ((λ res, Fetched (Symbol res) (summary res)) <$> out) = [].
Proof. by induction out. Qed.

Lemma submitted_app (l1 l2 : list event) :
  submitted (l1 ++ l2) = submitted l1 ++ submitted l2.
Proof. apply omap_app. Qed.

Lemma run_submitted w (sched : list nat) raw (col : list cell) :
  get_column "Symbol" raw = Some col →
  submitted (run (Returned raw) w sched).1 = clean_symbols col.
Proof.
  intros Hcol. unfold run. rewrite Hcol.
  destruct (clean_symbols col) as [|s l] eqn:Hs; [done|].
  destruct (merge raw _); simpl;
    rewrite ?submitted_app, submitted_Submit, submitted_Fetched; simpl;
    by rewrite ?app_nil_r.
Qed.

(** The merge key of a row with a text: the text upper-cased. *)
Lemma merge_keys_Text (col : list cell) (i : nat) (t : string) :
  col !! i = Some (Text t) → merge_keys col !! i = Some (Text (upper t)).
Proof.
  intros Hi. unfold merge_keys. by rewrite !list_lookup_fmap, Hi.
Qed.

(** The cell a row keyed by a text finds in a result column after the
    batch. *)
Lemma joined_row w (sched : list nat) (col : list cell)
    (field : Result → option string) (i : nat) (k : string) :
  merge_keys col !! i = Some (Text k) →
  (joined (out_map (run_batch w sched (clean_symbols col))) field
     <$> merge_keys col) !! i
  = Some (expected_cell w (clean_symbols col) field k).
Proof.
  intros Hk. rewrite list_lookup_fmap, Hk.
  exact (f_equal Some (joined_run_batch w sched col field k)).
Qed.

Lemma joined_row_missing (m : gmap string Result)
    (field : Result → option string) (keys : list cell) (i : nat) :
  keys !! i = Some NaN → (joined m field <$> keys) !! i = Some NaN.
Proof. intros Hk. by rewrite list_lookup_fmap, Hk. Qed.


Lemma run_unfold w (sched : list nat) raw (col : list cell) :
  get_column "Symbol" raw = Some col → clean_symbols col ≠ [] →
  run (Returned raw) w sched
  = let out_rows := run_batch w sched (clean_symbols col) in
    let log :=
      StInfo (length (clean_symbols col)) :: (Submit <$> clean_symbols col)
      ++ ((λ res, Fetched (Symbol res) (summary res)) <$> out_rows) in
    match merge raw out_rows with
    | Raised e => (log, Uncaught e)
    | Returned merged => (log ++ [StDataframe merged], Rendered)
    end.
Proof.
  intros Hcol Hne. unfold run. rewrite Hcol.
  by destruct (clean_symbols col).
Qed.

Lemma shown_no_table (log : list event) :
  (∀ e df, e ∈ log → e ≠ StDataframe df) → shown log = None.
Proof.
  intros Hlog. unfold shown. destruct (last log) as [e|] eqn:Hl; [|done].
  apply last_Some_elem_of in Hl. destruct e; try done.
  by destruct (Hlog _ df Hl).
Qed.

Lemma run_ending w (sched : list nat) raw (col : list cell) :
  get_column "Symbol" raw = Some col → clean_symbols col ≠ [] →
  (run (Returned raw) w sched).2
  = match merge raw (run_batch w sched (clean_symbols col)) with
    | Returned _ => Rendered
    | Raised e => Uncaught e
    end
  ∧ shown (run (Returned raw) w sched).1
    = match merge raw (run_batch w sched (clean_symbols col)) with
      | Returned merged => Some merged
      | Raised e => None
      end.
Proof.
  intros Hcol Hne. rewrite (run_unfold w sched raw col Hcol Hne).
  cbv zeta. destruct (merge raw _) as [merged|e]; cbn [fst snd].
  - split; [done|]. unfold shown. by rewrite last_snoc.
  - split; [done|]. apply shown_no_table. intros ev df Hev.
    apply elem_of_cons in Hev as [->|Hev]; [done|].
    apply elem_of_app in Hev as [Hev|Hev];
      apply list_elem_of_fmap in Hev as (x & -> & _); done.
Qed.

Lemma out_map_schedule w (sched sched' : list nat) (symbols : list string) :
  NoDup symbols →
  out_map (run_batch w sched symbols) = out_map (run_batch w sched' symbols).
Proof.
  intros Hnd. apply map_eq. intros k. by rewrite !out_map_lookup.
Qed.

Lemma merge_out_map raw (out out' : list Result) :
  out_map out = out_map out' → merge raw out = merge raw out'.
Proof. intros Hm. unfold merge. by rewrite Hm. Qed.

Lemma merge_returns raw (col : list cell) (out : list Result) :
  get_column "Symbol" raw = Some col →
  (∀ c, c ∈ result_columns → c ∉ raw.*1) →
  ∃ merged, merge raw out = Returned merged.
Proof.
  intros Hcol Hdisj. unfold merge, join. rewrite Hcol, get_set_column.
  case_decide as Hov.
  { apply Exists_exists in Hov as (c & Hc & Hin).
    apply set_column_names in Hin as [->|Hin].
    - by destruct helper_not_result_column.
    - by destruct (Hdisj c Hc). }
  unfold drop_column. case_decide as Hin; [eauto|].
  destruct Hin. rewrite fmap_app, elem_of_app. left.
  apply set_column_names. by left.
Qed.

Lemma merge_raises_overlap raw (col : list cell) (out : list Result)
    (e : string) :
  get_column "Symbol" raw = Some col → merge raw out = Raised e →
  e = "columns overlap but no suffix specified"
  ∧ ∃ c, c ∈ result_columns ∧ c ∈ raw.*1.
Proof.
  intros Hcol Hm.
  destruct (decide (Exists (λ c, c ∈ raw.*1) result_columns)) as [Hex|Hno].
  - apply Exists_exists in Hex as (c & Hc & Hin).
    split; [|by exists c]. unfold merge, join in Hm.
    rewrite Hcol, get_set_column in Hm. case_decide as Hov.
    + by injection Hm as <-.
    + destruct Hov. apply Exists_exists. exists c. split; [done|].
      apply set_column_names. by right.
  - destruct (merge_returns raw col out Hcol) as [merged Hr].
    + intros c Hc Hin. apply Hno, Exists_exists. by exists c.
    + by rewrite Hr in Hm.
Qed.

(** Past the input checks and without a clash with a result column, the
    run shows a table, and a row with a text whose key was dispatched holds
    in each result column the field of the record fetched for that key. *)
Lemma run_shows_table w (sched : list nat) raw (col : list cell) :
  get_column "Symbol" raw = Some col → clean_symbols col ≠ [] →
  (∀ c, c ∈ result_columns → c ∉ raw.*1) →
  ∃ merged,
    merge raw (run_batch w sched (clean_symbols col)) = Returned merged
    ∧ (run (Returned raw) w sched).2 = Rendered
    ∧ shown (run (Returned raw) w sched).1 = Some merged
    ∧ ∀ i k, merge_keys col !! i = Some (Text k) → k ∈ clean_symbols col →
        ∀ name field, (name, field) ∈ result_fields →
          ∃ cells, get_column name merged = Some cells
                   ∧ cells !! i = Some (to_cell (field (fetch_from_yf w k))).
Proof.
  intros Hcol Hne Hdisj.
  destruct (merge_returns raw col (run_batch w sched (clean_symbols col))
              Hcol Hdisj) as [merged Hm].
  destruct (run_ending w sched raw col Hcol Hne) as [Hend Hshown].
  rewrite Hm in Hend, Hshown.
  exists merged. split; [done|]. split; [done|]. split; [done|].
  intros i k Hk Hin name field Hnf.
  eexists. split; [by eapply merge_result_column|].
  rewrite (joined_row w sched col field i k Hk).
  unfold expected_cell. by rewrite decide_True.
Qed.

(** X18: without a clash of column names the merged table is the uploaded one,
    columns and rows as they were, followed by the four result columns,
    each as long as the table; and rows whose symbols are equal up to
    letter case find the same cell in every result column. *)
Theorem merge_keeps_rows_and_columns raw (col : list cell)
    (out : list Result) :
  get_column "Symbol" raw = Some col →
  "_SYMBOL_UPPER_" ∉ raw.*1 →
  (∀ c, c ∈ result_columns → c ∉ raw.*1) →
  let added := joined_columns (out_map out) (merge_keys col) in
  merge raw out = Returned (raw ++ added)
  ∧ added.*1 = result_columns
  ∧ ∀ name cells, (name, cells) ∈ added →
      length cells = length col
      ∧ ∀ i j ci cj, col !! i = Some ci → col !! j = Some cj →
          str_method upper (astype_str ci) = str_method upper (astype_str cj) →
          cells !! i = cells !! j.
Proof.
  intros Hcol Hfresh Hdisj added. split; [by apply merge_fresh|].
  split; [done|]. intros name cells Hin.
  apply list_elem_of_fmap in Hin as ([n field] & [= -> ->] & _). simpl.
  split; [unfold merge_keys; by rewrite !length_fmap|].
  intros i j ci cj Hi Hj Hkey. unfold merge_keys.
  rewrite !list_lookup_fmap, Hi, Hj. simpl. by rewrite Hkey.
Qed.

(** C7: the symbols dispatched are the distinct non-empty values the
    cleaning of the Symbol column gives: the texts of its cells trimmed and
    upper-cased (by the ASCII rules where the text is ASCII), the empty one
    left out, each submitted once; whatever the completion order, the batch
    collects exactly the records of these symbols, one each, and a symbol
    whose resolution failed has its failure record among them. *)
Theorem one_result_per_symbol w (sched : list nat) raw (col : list cell) :
  get_column "Symbol" raw = Some col →
  let symbols := clean_symbols col in
  let out := run_batch w sched symbols in
  NoDup symbols
  ∧ (∀ s, s ∈ symbols
          ↔ s ≠ ""
            ∧ ∃ c, c ∈ col
                   ∧ str_method upper (str_method strip (astype_str c))
                     = Text s)
  ∧ ("" ∉ symbols)
  ∧ (∀ t, Text t ∈ col → ascii_text t →
       ascii_upper (ascii_strip t) ≠ "" →
       ascii_upper (ascii_strip t) ∈ symbols)
  ∧ submitted (run (Returned raw) w sched).1 = symbols
  ∧ out ≡ₚ fetch_from_yf w <$> symbols
  ∧ Symbol <$> out ≡ₚ symbols
  ∧ NoDup (Symbol <$> out)
  ∧ length out = length symbols
  ∧ ∀ s e, s ∈ symbols → yf_Ticker w s = Raised e → failure s e ∈ out.
Proof.
  intros Hcol symbols out.
  split; [apply clean_symbols_NoDup|].
  split; [apply clean_symbols_elem|].
  split.
  { intros Hs. by apply clean_symbols_elem in Hs as [Hne _]. }
  split.
  { intros t Hin Hascii. rewrite <- (upper_strip_ascii t Hascii).
    by apply clean_symbols_Text. }
  split; [by apply run_submitted|].
  split; [apply run_batch_Permutation|].
  split; [apply run_batch_symbols|].
  split; [subst out; rewrite run_batch_symbols; apply clean_symbols_NoDup|].
  split.
  - subst out. by rewrite run_batch_Permutation, length_fmap.
  - intros s e Hs He. subst out. rewrite run_batch_Permutation.
    apply list_elem_of_fmap. exists s. split; [|done].
    unfold fetch_from_yf. by rewrite He.
Qed.


(** C9, as amended: where [astype(str)] gives a missing cell the text
    "nan", a missing value in the Symbol column is cleaned to the symbol
    "NAN", which is dispatched like any other; the merge key of that row is
    "NAN" as well, so unless an uploaded column is named like a result
    column, the table shown holds in that row, in every result column, the
    field of the record fetched for "NAN", and these fields are not all
    missing. *)
Theorem missing_symbol_fetched_as_NAN w (sched : list nat) raw
    (col : list cell) (i : nat) :
  missing_text = Some "nan" →
  get_column "Symbol" raw = Some col → col !! i = Some NaN →
  (∀ c, c ∈ result_columns → c ∉ raw.*1) →
  "NAN" ∈ clean_symbols col
  ∧ "NAN" ∈ submitted (run (Returned raw) w sched).1
  ∧ merge_keys col !! i = Some (Text "NAN")
  ∧ ∃ merged,
      shown (run (Returned raw) w sched).1 = Some merged
      ∧ (∀ name field, (name, field) ∈ result_fields →
           ∃ cells, get_column name merged = Some cells
                    ∧ cells !! i
                      = Some (to_cell (field (fetch_from_yf w "NAN"))))
      ∧ ∃ name cells text,
          name ∈ result_columns
          ∧ get_column name merged = Some cells
          ∧ cells !! i = Some (Text text).
Proof.
  intros Hnan Hcol Hi Hdisj.
  assert (upper "nan" = "NAN") as Hup by by rewrite upper_ascii.
  assert (strip "nan" = "nan") as Hstrip by by rewrite strip_ascii.
  assert (astype_str NaN = Text "nan") as Hstr
    by (unfold astype_str; by rewrite Hnan).
  assert ("NAN" ∈ clean_symbols col) as Hin.
  { apply clean_symbols_elem. split; [done|]. exists NaN.
    split; [by eapply list_elem_of_lookup_2|].
    rewrite Hstr. simpl. by rewrite Hstrip, Hup. }
  split; [done|]. split; [by rewrite (run_submitted w sched raw col Hcol)|].
  assert (merge_keys col !! i = Some (Text "NAN")) as Hkey.
  { unfold merge_keys. rewrite !list_lookup_fmap, Hi.
    cbn [fmap option_fmap option_map]. rewrite Hstr. simpl. by rewrite Hup. }
  split; [done|].
  assert (clean_symbols col ≠ []) as Hne.
  { intros Hnil. rewrite Hnil in Hin. by apply elem_of_nil in Hin. }
  destruct (run_shows_table w sched raw col Hcol Hne Hdisj)
    as (merged & _ & _ & Hs & Hcells).
  exists merged. split; [done|]. split.
  { intros name field Hnf. by apply (Hcells i "NAN"). }
  destruct (fetch_date_or_error w "NAN") as [Hd|He].
  - destruct Hd as [text Hd].
    destruct (Hcells i "NAN" Hkey Hin "NextEarningsDate" NextEarningsDate)
      as (cells & Hget & Hcell); [left|].
    exists "NextEarningsDate", cells, text.
    split; [apply (result_field_column _ NextEarningsDate); left|].
    split; [done|]. by rewrite Hcell, Hd.
  - destruct He as [text He].
    destruct (Hcells i "NAN" Hkey Hin "Error" Error)
      as (cells & Hget & Hcell); [do 3 right; left|].
    exists "Error", cells, text.
    split; [apply (result_field_column _ Error); do 3 right; left|].
    split; [done|]. by rewrite Hcell, He.
Qed.

(** X1: a row whose symbol text [str.strip] leaves as it is, and whose
    upper-cased text is not empty, holds in every result column of the
    merged table the field of the record fetched for its cleaned symbol. *)
Theorem trimmed_rows_receive_results w (sched : list nat) raw
    (col : list cell) merged (i : nat) (t : string) (name : string)
    (field : Result → option string) :
  get_column "Symbol" raw = Some col →
  merge raw (run_batch w sched (clean_symbols col)) = Returned merged →
  col !! i = Some (Text t) →
  strip t = t → upper t ≠ "" →
  (name, field) ∈ result_fields →
  upper (strip t) ∈ clean_symbols col
  ∧ ∃ cells,
      get_column name merged = Some cells
      ∧ cells !! i
        = Some (to_cell (field (fetch_from_yf w (upper (strip t))))).
Proof.
  intros Hcol Hm Hi Htrim Hne Hnf.
  assert (upper (strip t) ∈ clean_symbols col) as Hin.
  { apply clean_symbols_Text; [by eapply list_elem_of_lookup_2|].
    by rewrite Htrim. }
  split; [done|]. eexists. split; [by eapply merge_result_column|].
  rewrite Htrim in *.
  rewrite (joined_row w sched col field i (upper t));
    [|by apply merge_keys_Text].
  unfold expected_cell. by rewrite decide_True.
Qed.

(** X2: an uploaded table that already has a column named like a result
    column makes the join raise, after the fetches have run. *)
Theorem result_column_clash_raises raw (col : list cell) (out : list Result)
    (c : string) :
  get_column "Symbol" raw = Some col →
  c ∈ result_columns → c ∈ raw.*1 →
  merge raw out = Raised "columns overlap but no suffix specified".
Proof.
  intros Hcol Hc Hin. unfold merge, join. rewrite Hcol, get_set_column.
  case_decide as Hov; [done|]. destruct Hov. apply Exists_exists.
  exists c. split; [done|]. apply set_column_names. by right.
Qed.

(** X6: over ASCII text, a row whose symbol text has white space at either end
    finds nothing: whenever the merge returns a table, every result column
    is missing in that row, whatever was fetched. *)
Theorem padded_rows_receive_nothing w (sched : list nat) raw
    (col : list cell) merged (i : nat) (t : string) (name : string)
    (field : Result → option string) :
  ascii_column col →
  get_column "Symbol" raw = Some col →
  merge raw (run_batch w sched (clean_symbols col)) = Returned merged →
  col !! i = Some (Text t) →
  strip t ≠ t →
  (name, field) ∈ result_fields →
  (upper t ∉ clean_symbols col)
  ∧ ∃ cells, get_column name merged = Some cells ∧ cells !! i = Some NaN.
Proof.
  intros Hascii Hcol Hm Hi Hpad Hnf.
  assert (ascii_text t) as Ht.
  { apply (ascii_column_elem col (Text t) t Hascii);
      [by eapply list_elem_of_lookup_2|done]. }
  assert (upper t ∉ clean_symbols col) as Hnotin.
  { intros Hin.
    destruct (clean_symbols_ascii col _ Hascii Hin) as (_ & t' & Ht' & Heq).
    rewrite (upper_ascii t Ht) in Heq.
    apply Hpad. rewrite (strip_ascii t Ht). apply ascii_strip_length.
    rewrite <- (ascii_upper_length (ascii_strip _)), <- ascii_strip_upper, Heq.
    by rewrite ascii_strip_upper, ascii_strip_idemp, !ascii_upper_length,
      <- ascii_upper_length, <- Heq, ascii_upper_length. }
  split; [done|]. eexists. split; [by eapply merge_result_column|].
  rewrite (joined_row w sched col field i (upper t));
    [|by apply merge_keys_Text].
  unfold expected_cell. by rewrite decide_False.
Qed.

(** X7: the completion order of the futures does not show in the outcome:
    two runs on the same upload and provider that differ in their schedule
    end the same way and show the same table. *)
Theorem outcome_schedule_independent (uploaded : outcome DataFrame) w
    (sched sched' : list nat) :
  (run uploaded w sched).2 = (run uploaded w sched').2
  ∧ shown (run uploaded w sched).1 = shown (run uploaded w sched').1.
Proof.
  destruct uploaded as [raw|e]; [|done].
  destruct (get_column "Symbol" raw) as [col|] eqn:Hcol;
    [|by unfold run; rewrite Hcol].
  destruct (decide (clean_symbols col = [])) as [Hnil|Hne];
    [by unfold run; rewrite Hcol, Hnil|].
  destruct (run_ending w sched raw col Hcol Hne) as [-> ->].
  destruct (run_ending w sched' raw col Hcol Hne) as [-> ->].
  by rewrite (merge_out_map raw _ _
    (out_map_schedule w sched sched' _ (clean_symbols_NoDup col))).
Qed.

(** X8: past the three input checks a run ends in one of two ways: on the
    rendered table, exactly when no uploaded column is named like a result
    column, and otherwise on the exception of the join; the fetches have been
    dispatched either way. *)
Theorem run_ending_characterised w (sched : list nat) raw (col : list cell) :
  get_column "Symbol" raw = Some col → clean_symbols col ≠ [] →
  ((run (Returned raw) w sched).2 = Rendered
   ↔ ∀ c, c ∈ result_columns → c ∉ raw.*1)
  ∧ ((run (Returned raw) w sched).2 ≠ Rendered →
     (run (Returned raw) w sched).2
     = Uncaught "columns overlap but no suffix specified")
  ∧ submitted (run (Returned raw) w sched).1 = clean_symbols col.
Proof.
  intros Hcol Hne. destruct (run_ending w sched raw col Hcol Hne) as [-> _].
  split; [|split; [|by apply run_submitted]].
  - split.
    + intros Hr c Hc Hin.
      destruct (merge raw _) as [merged|e] eqn:Hm; [|done].
      unfold merge, join in Hm. rewrite Hcol, get_set_column in Hm.
      case_decide as Hov; [done|]. apply Hov, Exists_exists.
      exists c. split; [done|]. apply set_column_names. by right.
    + intros Hdisj.
      by destruct (merge_returns raw col
        (run_batch w sched (clean_symbols col)) Hcol Hdisj) as [merged ->].
  - destruct (merge raw _) as [merged|e] eqn:Hm; [done|]. intros _.
    by destruct (merge_raises_overlap raw col _ e Hcol Hm) as [-> _].
Qed.

(** X9: the table a run shows cannot be uploaded again as it is: it has the
    Symbol column and the result columns, so a run on it dispatches the same
    symbols and then ends on the exception of the join. *)
Theorem rerun_on_output_raises w (sched : list nat) raw merged :
  shown (run (Returned raw) w sched).1 = Some merged →
  ∀ w' sched',
    submitted (run (Returned merged) w' sched').1
    = submitted (run (Returned raw) w sched).1
    ∧ (run (Returned merged) w' sched').2
      = Uncaught "columns overlap but no suffix specified".
Proof.
  intros Hshown w' sched'.
  destruct (get_column "Symbol" raw) as [col|] eqn:Hcol;
    [|by unfold run in Hshown; rewrite Hcol in Hshown].
  destruct (decide (clean_symbols col = [])) as [Hnil|Hne];
    [by unfold run in Hshown; rewrite Hcol, Hnil in Hshown|].
  destruct (run_ending w sched raw col Hcol Hne) as [_ Hs].
  rewrite Hs in Hshown.
  destruct (merge raw (run_batch w sched (clean_symbols col)))
    as [merged'|e] eqn:Hm; [|done]. injection Hshown as ->.
  assert (get_column "Symbol" merged = Some col) as Hcol'
    by by eapply merge_original_column.
  split.
  { by rewrite (run_submitted w' sched' merged col Hcol'),
      (run_submitted w sched raw col Hcol). }
  destruct (run_ending w' sched' merged col Hcol' Hne) as [-> _].
  assert (get_column "Error" merged
          = Some (joined (out_map (run_batch w sched (clean_symbols col)))
                    Error <$> merge_keys col)) as Herr.
  { apply (merge_result_column raw col _ merged "Error" Error Hcol Hm).
    unfold result_fields. do 3 right. left. }
  destruct (merge merged _) as [again|e] eqn:Hagain.
  - unfold merge, join in Hagain. rewrite Hcol', get_set_column in Hagain.
    case_decide as Hov; [done|]. destruct Hov. apply Exists_exists.
    exists "Error".
    split; [apply (result_field_column _ Error); do 3 right; left|].
    apply set_column_names. right.
    apply get_column_elem in Herr. apply list_elem_of_fmap.
    by eexists (_, _).
  - by destruct (merge_raises_overlap merged col _ e Hcol' Hagain) as [-> _].
Qed.

(** X10: whenever the merge returns a table, its columns are the uploaded
    ones other than one named "_SYMBOL_UPPER_", each with the cells it had,
    and the four result columns; no column named "_SYMBOL_UPPER_" is left. *)
Theorem merge_frame raw (out : list Result) merged :
  merge raw out = Returned merged →
  (∀ name cells, name ≠ "_SYMBOL_UPPER_" →
     get_column name raw = Some cells → get_column name merged = Some cells)
  ∧ get_column "_SYMBOL_UPPER_" merged = None
  ∧ ∀ name, name ∈ merged.*1
            ↔ (name ∈ raw.*1 ∧ name ≠ "_SYMBOL_UPPER_")
              ∨ name ∈ result_columns.
Proof.
  intros Hm. split.
  { intros name cells Hne Hget.
    by apply (merge_original_column raw out merged name cells). }
  unfold merge, join in Hm.
  destruct (get_column "Symbol" raw) as [col|]; [|done].
  rewrite get_set_column in Hm. case_decide as Hov; [done|].
  unfold drop_column in Hm. case_decide; [|done]. injection Hm as <-.
  assert (∀ name, name ∈ (filter (λ c : string * list cell,
                                   c.1 ≠ "_SYMBOL_UPPER_")
            (set_column "_SYMBOL_UPPER_" (merge_keys col) raw ++
             joined_columns (out_map out) (merge_keys col))).*1
          ↔ (name ∈ raw.*1 ∧ name ≠ "_SYMBOL_UPPER_")
            ∨ name ∈ result_columns) as Hnames.
  { intros name. rewrite list_elem_of_fmap. split.
    - intros ([n cells] & -> & Hin). simpl.
      apply list_elem_of_filter in Hin as [Hne Hin]. simpl in Hne.
      apply elem_of_app in Hin as [Hin|Hin].
      + left. split; [|done].
        assert (n ∈ (set_column "_SYMBOL_UPPER_"
                       (merge_keys col) raw).*1) as Hn
          by (apply list_elem_of_fmap; by exists (n, cells)).
        apply set_column_names in Hn as [->|Hn]; done.
      + right. rewrite <- (joined_columns_names (out_map out)
                             (merge_keys col)).
        apply list_elem_of_fmap. by exists (n, cells).
    - intros [[Hin Hne]|Hin].
      + assert (name ∈ (set_column "_SYMBOL_UPPER_"
                          (merge_keys col) raw).*1) as Hn
          by (apply set_column_names; by right).
        apply list_elem_of_fmap in Hn as ([n cells] & -> & Hn).
        exists (n, cells). split; [done|].
        apply list_elem_of_filter. split; [done|].
        apply elem_of_app. by left.
      + rewrite <- (joined_columns_names (out_map out)
                      (merge_keys col)) in Hin.
        apply list_elem_of_fmap in Hin as ([n cells] & -> & Hn).
        exists (n, cells). split; [done|].
        apply list_elem_of_filter. split.
        * simpl. intros ->. apply helper_not_result_column.
          rewrite <- (joined_columns_names (out_map out)
                        (merge_keys col)).
          apply list_elem_of_fmap. by exists ("_SYMBOL_UPPER_", cells).
        * apply elem_of_app. by right. }
  split; [|exact Hnames].
  apply get_column_None. intros Hin. apply Hnames in Hin as [[_ Hne]|Hin].
  - done.
  - by destruct helper_not_result_column.
Qed.

End AppFacts.

(** ** The run on the sample uploads *)

(** C5 fails on the code: the batch dispatches the symbol trimmed and
    upper-cased (line 166), the merge key of line 194 is upper-cased only.
    The one row of [padded_upload] has its symbol dispatched as "AAPL" and
    resolved to a date, its key is " AAPL", and the row is rendered with all
    four result fields missing. *)
Example untrimmed_key_misses_result :
  clean_symbols [Text " aapl"] = ["AAPL"]
  ∧ merge_keys [Text " aapl"] = [Text " AAPL"]
  ∧ NextEarningsDate (fetch_from_yf sample_world "AAPL") = Some "1718409600"
  ∧ run (Returned padded_upload) sample_world []
    = ([StInfo 1; Submit "AAPL"; Fetched "AAPL" "1718409600";
        StDataframe
          [("Symbol", [Text " aapl"]); ("NextEarningsDate", [NaN]);
           ("Source", [NaN]); ("Details", [NaN]); ("Error", [NaN])]],
       Rendered).
Proof. vm_compute. done. Qed.

(** The rows of the specification's example, which differ by letter case
    only, do receive their results. *)
Example sample_upload_merged :
  run (Returned sample_upload) sample_world [2; 0]%nat
  = ([StInfo 2; Submit "AAPL"; Submit "MSFT";
      Fetched "AAPL" "1718409600"; Fetched "MSFT" "X";
      StDataframe
        [("Symbol", [Text "aapl"; Text "AAPL"; Text "msft"; NaN]);
         ("Note", [Text "a"; Text "b"; Text "c"; Text "d"]);
         ("NextEarningsDate",
          [Text "1718409600"; Text "1718409600"; NaN; NaN]);
         ("Source",
          [Text "get_earnings_dates"; Text "get_earnings_dates"; NaN; NaN]);
         ("Details", [Text "candidates=2"; Text "candidates=2"; NaN; NaN]);
         ("Error", [NaN; NaN; Text "X"; NaN])]],
     Rendered).
Proof. vm_compute. done. Qed.

(** C6 fails on a table that has a column named like the helper column of
    the merge: the merge returns a table, and the uploaded column is
    gone. *)
Lemma helper_column_lost :
  ∃ merged,
    merge clashing_upload (run_batch sample_world [] ["AAPL"])
      = Returned merged
    ∧ get_column "_SYMBOL_UPPER_" clashing_upload = Some [Text "mine"]
    ∧ get_column "_SYMBOL_UPPER_" merged = None.
Proof. eexists. split; [by vm_compute|]. by split. Qed.

Lemma sample_upload_fresh :
  ("_SYMBOL_UPPER_" ∉ sample_upload.*1)
  ∧ ∀ c, c ∈ result_columns → c ∉ sample_upload.*1.
Proof.
  split.
  - apply (bool_decide_unpack _). vm_compute. exact I.
  - apply Forall_forall. apply (bool_decide_unpack _). vm_compute. exact I.
Qed.

Lemma merge_keeps_rows_sample :
  let col := [Text "aapl"; Text "AAPL"; Text "msft"; NaN] in
  let out := run_batch sample_world [2; 0]%nat (clean_symbols col) in
  get_column "Symbol" sample_upload = Some col
  ∧ ("_SYMBOL_UPPER_" ∉ sample_upload.*1)
  ∧ (∀ c, c ∈ result_columns → c ∉ sample_upload.*1)
  ∧ merge sample_upload out
    = Returned (sample_upload
                ++ joined_columns (out_map out) (merge_keys col)).
Proof.
  intros col out. destruct sample_upload_fresh as [Hfresh Hdisj].
  split; [reflexivity|]. split; [exact Hfresh|]. split; [exact Hdisj|].
  exact (proj1 (merge_keeps_rows_and_columns sample_upload col out
                  eq_refl Hfresh Hdisj)).
Defined.

(** An upload with padded, repeated and blank symbols: the two distinct
    symbols are dispatched once each, trimmed and upper-cased, the blank
    ones are not; the failure of MSFT is a record of the batch. *)
Lemma one_result_per_symbol_sample :
  let col := [Text " aapl"; Text "AAPL "; Text "  "; Text ""; Text "msft";
              Text "Aapl"] in
  get_column "Symbol" untidy_upload = Some col
  ∧ clean_symbols col = ["AAPL"; "MSFT"]
  ∧ submitted (run (Returned untidy_upload) sample_world [1]%nat).1
    = ["AAPL"; "MSFT"]
  ∧ run_batch sample_world [1]%nat ["AAPL"; "MSFT"]
    = [failure "MSFT" "X";
       {| Symbol := "AAPL"; NextEarningsDate := Some "1718409600";
          Source := Some "get_earnings_dates";
          Details := Some "candidates=2"; Error := None |}]
  ∧ NoDup (Symbol <$> run_batch sample_world [1]%nat (clean_symbols col))
  ∧ (Symbol <$> run_batch sample_world [1]%nat (clean_symbols col))
    ≡ₚ clean_symbols col.
Proof.
  intros col.
  destruct (one_result_per_symbol sample_world [1]%nat untidy_upload col
              eq_refl) as (_ & _ & _ & _ & Hsub & _ & Hperm & Hnd & _).
  split; [reflexivity|]. split; [reflexivity|]. split; [exact Hsub|].
  split; [reflexivity|]. split; [exact Hnd|exact Hperm].
Defined.


(** C9 as stated fails where [astype(str)] leaves a missing cell missing
    (pandas 3): the cell is dropped with the blank ones, no fetch of "NAN"
    is dispatched, the key of its row is missing and the row is shown with
    all four result fields missing.  It also fails, whatever the pandas,
    where an uploaded column is named like a result column: no table is
    shown. *)
Lemma missing_symbol_stays_missing :
  let col := [Text "aapl"; Text "AAPL"; Text "msft"; NaN] in
  @missing_text pandas3 = None
  ∧ @clean_symbols ascii_str pandas3 col = ["AAPL"; "MSFT"]
  ∧ @merge_keys ascii_str pandas3 col !! 3%nat = Some NaN
  ∧ @run sample_value sample_dates ascii_str pandas3
      (Returned sample_upload) sample_world [2; 0]%nat
    = ([StInfo 2; Submit "AAPL"; Submit "MSFT";
        Fetched "AAPL" "1718409600"; Fetched "MSFT" "X";
        StDataframe
          [("Symbol", [Text "aapl"; Text "AAPL"; Text "msft"; NaN]);
           ("Note", [Text "a"; Text "b"; Text "c"; Text "d"]);
           ("NextEarningsDate",
            [Text "1718409600"; Text "1718409600"; NaN; NaN]);
           ("Source",
            [Text "get_earnings_dates"; Text "get_earnings_dates"; NaN; NaN]);
           ("Details", [Text "candidates=2"; Text "candidates=2"; NaN; NaN]);
           ("Error", [NaN; NaN; Text "X"; NaN])]],
       Rendered)
  ∧ @run sample_value sample_dates ascii_str pandas2
      (Returned (("Error", [NaN; NaN; NaN; NaN]) :: sample_upload))
      sample_world []
    = ([StInfo 3; Submit "AAPL"; Submit "MSFT"; Submit "NAN";
        Fetched "AAPL" "1718409600"; Fetched "MSFT" "X";
        Fetched "NAN" "No date found via yfinance endpoints"],
       Uncaught "columns overlap but no suffix specified").
Proof. intros col. vm_compute. done. Qed.

(** Before pandas 3 the missing symbol of the sample upload is fetched as
    "NAN", and its row shows the Error of that fetch. *)
Lemma missing_symbol_sample :
  let col := [Text "aapl"; Text "AAPL"; Text "msft"; NaN] in
  @missing_text pandas2 = Some "nan"
  ∧ get_column "Symbol" sample_upload = Some col
  ∧ col !! 3%nat = Some NaN
  ∧ @clean_symbols ascii_str pandas2 col = ["AAPL"; "MSFT"; "NAN"]
  ∧ @merge_keys ascii_str pandas2 col !! 3%nat = Some (Text "NAN")
  ∧ @run sample_value sample_dates ascii_str pandas2
      (Returned sample_upload) sample_world [2; 0]%nat
    = ([StInfo 3; Submit "AAPL"; Submit "MSFT"; Submit "NAN";
        Fetched "NAN" "No date found via yfinance endpoints";
        Fetched "AAPL" "1718409600"; Fetched "MSFT" "X";
        StDataframe
          [("Symbol", [Text "aapl"; Text "AAPL"; Text "msft"; NaN]);
           ("Note", [Text "a"; Text "b"; Text "c"; Text "d"]);
           ("NextEarningsDate",
            [Text "1718409600"; Text "1718409600"; NaN; NaN]);
           ("Source",
            [Text "get_earnings_dates"; Text "get_earnings_dates"; NaN; NaN]);
           ("Details", [Text "candidates=2"; Text "candidates=2"; NaN; NaN]);
           ("Error",
            [NaN; NaN; Text "X";
             Text "No date found via yfinance endpoints"])]],
       Rendered)
  ∧ "NAN" ∈ submitted
              (@run sample_value sample_dates ascii_str pandas2
                 (Returned sample_upload) sample_world [2; 0]%nat).1.
Proof.
  intros col. destruct sample_upload_fresh as [_ Hdisj].
  destruct (@missing_symbol_fetched_as_NAN sample_value sample_dates
              ascii_str pandas2 sample_world [2; 0]%nat sample_upload col 3
              eq_refl eq_refl eq_refl Hdisj) as (_ & Hsub & Hkey & _).
  split; [reflexivity|]. split; [reflexivity|]. split; [reflexivity|].
  split; [reflexivity|]. split; [exact Hkey|]. split; [reflexivity|].
  exact Hsub.
Defined.

Lemma trimmed_rows_sample :
  let col := [Text "aapl"; Text "AAPL"; Text "msft"; NaN] in
  let out := run_batch sample_world [2; 0]%nat (clean_symbols col) in
  strip "aapl" = "aapl"
  ∧ ∃ merged cells,
      merge sample_upload out = Returned merged
      ∧ get_column "NextEarningsDate" merged = Some cells
      ∧ cells !! 0%nat
        = Some (to_cell (NextEarningsDate (fetch_from_yf sample_world "AAPL")))
      ∧ cells !! 0%nat = Some (Text "1718409600").
Proof.
  intros col out. split; [reflexivity|].
  destruct (merge sample_upload out) as [merged|e] eqn:Hm; [|by vm_compute in Hm].
  assert (("NextEarningsDate", NextEarningsDate) ∈ result_fields) as Hnf
    by left.
  assert (upper "aapl" ≠ "") as Hne by by vm_compute.
  destruct (trimmed_rows_receive_results sample_world [2; 0]%nat sample_upload
              col merged 0 "aapl" "NextEarningsDate" NextEarningsDate
              eq_refl Hm eq_refl eq_refl Hne Hnf)
    as (_ & cells & Hget & Hcell).
  exists merged, cells. split; [reflexivity|]. split; [exact Hget|].
  split; exact Hcell.
Defined.

Lemma result_column_clash_sample :
  merge (("Error", [Text "old"]) :: padded_upload) []
  = Raised "columns overlap but no suffix specified".
Proof.
  apply (result_column_clash_raises _ [Text " aapl"] [] "Error").
  - reflexivity.
  - apply (bool_decide_unpack _). vm_compute. exact I.
  - left.
Defined.

Lemma as_completed_any_order_sample :
  ∃ sched,
    as_completed sched ["AAPL"; "MSFT"; "NAN"] 3 = ["NAN"; "AAPL"; "MSFT"].
Proof.
  apply (as_completed_any_order ["AAPL"; "MSFT"; "NAN"]
           ["NAN"; "AAPL"; "MSFT"]).
  apply (Permutation_cons_append ["AAPL"; "MSFT"] "NAN").
Defined.

Lemma ascii_column_sample :
  ascii_column [Text " aapl"; Text "AAPL "; NaN].
Proof. unfold ascii_column. repeat constructor. Qed.

Lemma clean_symbols_normal_form_sample :
  clean_symbols [Text " aapl"; Text "AAPL "; NaN] = ["AAPL"]
  ∧ strip "AAPL" = "AAPL" ∧ upper "AAPL" = "AAPL".
Proof.
  assert ("AAPL" ∈ clean_symbols [Text " aapl"; Text "AAPL "; NaN]) as Hin
    by (vm_compute; left).
  split; [reflexivity|].
  exact (proj2 (clean_symbols_normal_form
                  [Text " aapl"; Text "AAPL "; NaN] "AAPL"
                  ascii_column_sample Hin)).
Defined.

Lemma clean_symbols_idempotent_sample :
  clean_symbols [Text " aapl"; Text "AAPL "; NaN] = ["AAPL"]
  ∧ clean_symbols
      (Text <$> clean_symbols [Text " aapl"; Text "AAPL "; NaN])
    = clean_symbols [Text " aapl"; Text "AAPL "; NaN].
Proof.
  split; [reflexivity|].
  exact (clean_symbols_idempotent [Text " aapl"; Text "AAPL "; NaN]
           ascii_column_sample).
Defined.

Lemma padded_rows_sample :
  let out := run_batch sample_world [] (clean_symbols [Text " aapl"]) in
  strip " aapl" ≠ " aapl"
  ∧ ∃ merged cells,
      merge padded_upload out = Returned merged
      ∧ get_column "NextEarningsDate" merged = Some cells
      ∧ cells !! 0%nat = Some NaN.
Proof.
  intros out.
  assert (strip " aapl" ≠ " aapl") as Hpad by by vm_compute.
  assert (ascii_column [Text " aapl"]) as Hascii
    by (unfold ascii_column; repeat constructor).
  split; [exact Hpad|].
  destruct (merge padded_upload out) as [merged|e] eqn:Hm;
    [|by vm_compute in Hm].
  assert (("NextEarningsDate", NextEarningsDate) ∈ result_fields) as Hnf
    by left.
  destruct (padded_rows_receive_nothing sample_world [] padded_upload
              [Text " aapl"] merged 0 " aapl" "NextEarningsDate"
              NextEarningsDate Hascii eq_refl Hm eq_refl Hpad Hnf)
    as (_ & cells & Hget & Hcell).
  exists merged, cells. split; [reflexivity|]. split; [exact Hget|exact Hcell].
Defined.

Lemma run_ending_sample :
  let col := [Text "aapl"; Text "AAPL"; Text "msft"; NaN] in
  get_column "Symbol" sample_upload = Some col
  ∧ clean_symbols col ≠ []
  ∧ ((run (Returned sample_upload) sample_world [2; 0]%nat).2 = Rendered
     ↔ ∀ c, c ∈ result_columns → c ∉ sample_upload.*1).
Proof.
  intros col.
  assert (clean_symbols col ≠ []) as Hne by by vm_compute.
  split; [reflexivity|]. split; [exact Hne|].
  exact (proj1 (run_ending_characterised sample_world [2; 0]%nat
                  sample_upload col eq_refl Hne)).
Defined.

Lemma rerun_on_output_sample :
  ∃ merged,
    shown (run (Returned sample_upload) sample_world [2; 0]%nat).1
    = Some merged
    ∧ (run (Returned merged) sample_world []).2
      = Uncaught "columns overlap but no suffix specified".
Proof.
  destruct (shown (run (Returned sample_upload) sample_world [2; 0]%nat).1)
    as [merged|] eqn:Hs; [|by vm_compute in Hs].
  exists merged. split; [reflexivity|].
  exact (proj2 (rerun_on_output_raises sample_world [2; 0]%nat sample_upload
                  merged Hs sample_world [])).
Defined.

Lemma merge_frame_sample :
  ∃ merged,
    merge clashing_upload (run_batch sample_world [] ["AAPL"])
      = Returned merged
    ∧ get_column "Symbol" merged = Some [Text "AAPL"]
    ∧ get_column "_SYMBOL_UPPER_" merged = None.
Proof.
  destruct (merge clashing_upload (run_batch sample_world [] ["AAPL"]))
    as [merged|e] eqn:Hm; [|by vm_compute in Hm].
  exists merged. split; [reflexivity|].
  destruct (merge_frame clashing_upload _ merged Hm) as (Hkeep & Hgone & _).
  split; [|exact Hgone].
  apply Hkeep; [discriminate|reflexivity].
Defined.
